(** * Geometry-aware transforms of mindocr: a shallow embedding

    Source: [mindocr/data/transforms/general_transforms.py], classes
    [ScalePadImage] and [RandomCropWithBBox], and after them the other
    array stages of the file: [GridResize], [RandomScale],
    [NormalizeImage], [ToCHWImage] and [PackLoaderInputs].

    Modelling conventions.
    - Floating-point coordinates, scales and ratios are exact rationals
      ([Q]); integer arrays ([np.int32], image sizes) are [Z], and the casts
      to [np.int32] are exact (coordinates and sizes stay far from [2^31]).
    - A raster ([H x W x C] ndarray) is a list of rows, a row a list of
      pixels, a pixel the list of its channel samples.
    - The record threaded through the pipeline is a Python dict; the keys
      the two stages read or write are the optional fields of [Data], and
      subscripting an absent key raises [KeyError].
    - Python exceptions are the [Raise] branch of an error monad.
    - The global numpy random source is an explicit [RandomState]: an
      infinite tape of raw draws and a cursor.  A stage that consumes no
      randomness returns the state it was given.
    - [cv2.resize] and the shapely predicates are external code: they are
      the operations of the classes [Cv2] and [Shapely]; what is assumed of
      them is stated in [cv2_sound] and [shapely_sound], and one concrete
      instance of each is defined so that the stages can be run. *)

From Stdlib Require Import String.
From Stdlib Require Import ZArith QArith Qround Qminmax Qabs List Bool Lia Lqa.
Import ListNotations.

Local Open Scope Z_scope.

(** ** Python exceptions and the error monad *)

Inductive exn : Type :=
| KeyError (key : string)
| ValueError
| IndexError
| AttributeError.

Inductive result (A : Type) : Type :=
| Ok (a : A)
| Raise (e : exn).

Arguments Ok {A} a.
Arguments Raise {A} e.

Definition bind {A B : Type} (r : result A) (k : A -> result B) : result B :=
  match r with
  | Ok a => k a
  | Raise e => Raise e
  end.

Declare Scope py_scope.
Delimit Scope py_scope with py.
Notation "x <- c1 ;; c2" := (bind c1 (fun x => c2))
  (at level 100, c1 at next level, right associativity) : py_scope.
Notation "' pat <- c1 ;; c2" := (bind c1 (fun x => match x with pat => c2 end))
  (at level 100, pat pattern, c1 at next level, right associativity) : py_scope.
Local Open Scope py_scope.

(** [d[key]] on a dict field that may be absent. *)
Definition getitem {A : Type} (key : string) (field : option A) : result A :=
  match field with
  | Some v => Ok v
  | None => Raise (KeyError key)
  end.

(** [l[i]] on a Python list, for a non-negative index. *)
Definition index {A : Type} (l : list A) (i : nat) : result A :=
  match nth_error l i with
  | Some v => Ok v
  | None => Raise IndexError
  end.

(** ** Data model *)

(** A vertex [(x, y)]; a polygon, its vertices in order; a pixel, its channel
    samples; a raster, its rows. *)
Abbreviation point := (Q * Q)%type (only parsing).
Abbreviation polygon := (list (Q * Q)) (only parsing).
Abbreviation pixel := (list Z) (only parsing).
Abbreviation Image := (list (list (list Z))) (only parsing).

Record Data : Type := mkData {
  image : option Image;
  polys : option (list polygon);
  texts : option (list string);
  ignore_tags : option (list bool);
  shape : option (list Q)
}.

Definition set_image (d : Data) (v : Image) : Data :=
  mkData (Some v) (polys d) (texts d) (ignore_tags d) (shape d).
Definition set_polys (d : Data) (v : list polygon) : Data :=
  mkData (image d) (Some v) (texts d) (ignore_tags d) (shape d).
Definition set_texts (d : Data) (v : list string) : Data :=
  mkData (image d) (polys d) (Some v) (ignore_tags d) (shape d).
Definition set_ignore_tags (d : Data) (v : list bool) : Data :=
  mkData (image d) (polys d) (texts d) (Some v) (shape d).
Definition set_shape (d : Data) (v : list Q) : Data :=
  mkData (image d) (polys d) (texts d) (ignore_tags d) (Some v).

(** ** numpy *)

Definition Qltb (a b : Q) : bool := negb (Qle_bool b a).

(** [np.round]: to the nearest integer, ties to the even one. *)
Definition np_round (q : Q) : Z :=
  let f := Qfloor q in
  match (q - inject_Z f ?= 1 # 2)%Q with
  | Lt => f
  | Gt => f + 1
  | Eq => if Z.even f then f else f + 1
  end.

(** [img.shape[:2]]; a raster without rows reports width 0. *)
Definition img_shape (img : Image) : Z * Z :=
  (Z.of_nat (length img), Z.of_nat (length (hd [] img))).

Definition img_channels (img : Image) : nat := length (hd [] (hd [] img)).

(** The raster has exactly [h] rows of [w] pixels. *)
Definition has_shape (img : Image) (h w : Z) : Prop :=
  Z.of_nat (length img) = h /\ Forall (fun r => Z.of_nat (length r) = w) img.

(** [img[i, j]] for non-negative indices in range. *)
Definition pixel_at (img : Image) (i j : Z) : pixel :=
  nth (Z.to_nat j) (nth (Z.to_nat i) img []) [].

(** [a[lo:hi]] for non-negative bounds. *)
Definition slice {A : Type} (lo hi : Z) (a : list A) : list A :=
  firstn (Z.to_nat (hi - lo)) (skipn (Z.to_nat lo) a).

(** [img[y0:y1, x0:x1]]. *)
Definition slice2d (img : Image) (y0 y1 x0 x1 : Z) : Image :=
  map (slice x0 x1) (slice y0 y1 img).

(** [np.pad(img, ((0, ph), (0, pw), (0, 0)))]: constant (zero) padding at the
    bottom and on the right; a negative pad width is a [ValueError]. *)
Definition np_pad (img : Image) (ph pw : Z) : result Image :=
  if (ph <? 0) || (pw <? 0) then Raise ValueError
  else
    let z := repeat 0 (img_channels img) in
    let w := length (hd [] img) in
    Ok (map (fun r => r ++ repeat z (Z.to_nat pw)) img
          ++ repeat (repeat z (w + Z.to_nat pw)) (Z.to_nat ph)).

(** [a.min()] and [a.max()] of a one-dimensional array. *)
Definition amin (a : list Z) : result Z :=
  match a with
  | [] => Raise ValueError
  | x :: r => Ok (fold_left Z.min r x)
  end.

Definition amax (a : list Z) : result Z :=
  match a with
  | [] => Raise ValueError
  | x :: r => Ok (fold_left Z.max r x)
  end.

(** [poly.max(axis=0)] and [poly.min(axis=0)] of an [N x 2] array. *)
Definition poly_max (poly : polygon) : result point :=
  match poly with
  | [] => Raise ValueError
  | p :: r => Ok (fold_left (fun m q => (Qmax (fst m) (fst q), Qmax (snd m) (snd q))) r p)
  end.

Definition poly_min (poly : polygon) : result point :=
  match poly with
  | [] => Raise ValueError
  | p :: r => Ok (fold_left (fun m q => (Qmin (fst m) (fst q), Qmin (snd m) (snd q))) r p)
  end.

(** [a[lo:hi] = v] for non-negative bounds; [i] is the index of the head. *)
Fixpoint slice_assign_from (i lo hi v : Z) (a : list Z) : list Z :=
  match a with
  | [] => []
  | x :: r =>
      (if (lo <=? i) && (i <? hi) then v else x) :: slice_assign_from (i + 1) lo hi v r
  end.

Definition slice_assign (a : list Z) (lo hi v : Z) : list Z :=
  slice_assign_from 0 lo hi v a.

(** [a.all()]. *)
Definition np_all (a : list Z) : bool := forallb (fun x => negb (x =? 0)) a.

(** [np.where(a == 0)[0]]; [i] is the index of the head. *)
Fixpoint where_zero_from (i : Z) (a : list Z) : list Z :=
  match a with
  | [] => []
  | x :: r => if x =? 0 then i :: where_zero_from (i + 1) r else where_zero_from (i + 1) r
  end.

Definition where_zero (a : list Z) : list Z := where_zero_from 0 a.

(** The random source: [tape] is the sequence of raw draws of the generator,
    [pos] how many have been consumed. *)
Record RandomState : Type := mkRandomState {
  tape : nat -> nat;
  pos : nat
}.

(** One uniform draw from [range(n)]. *)
Definition randint (n : nat) (g : RandomState) : nat * RandomState :=
  (Nat.modulo (tape g (pos g)) n, mkRandomState (tape g) (S (pos g))).

(** [np.random.choice(a, size=2)]: two independent draws (the default is
    [replace=True]); an empty population is a [ValueError]. *)
Definition np_random_choice2 (a : list Z) (g : RandomState)
  : result ((Z * Z) * RandomState) :=
  match a with
  | [] => Raise ValueError
  | _ =>
      let '(i, g1) := randint (length a) g in
      let '(j, g2) := randint (length a) g1 in
      Ok ((nth i a 0, nth j a 0), g2)
  end.

(** [np.sort] of a two-element array. *)
Definition np_sort2 (p : Z * Z) : Z * Z := (Z.min (fst p) (snd p), Z.max (fst p) (snd p)).

(** [arr * scale] on an array of polygons, and [(poly - start) * scale]. *)
Definition scale_point (s : Q) (p : point) : point := ((fst p * s)%Q, (snd p * s)%Q).

Definition scale_polys (s : Q) (ps : list polygon) : list polygon :=
  map (map (scale_point s)) ps.

Definition shift_scale (start_xy : Z * Z) (s : Q) (poly : polygon) : polygon :=
  map (fun p => (((fst p - inject_Z (fst start_xy)) * s)%Q,
                 ((snd p - inject_Z (snd start_xy)) * s)%Q)) poly.

(** ** External collaborators *)

(** OpenCV: [cv2_resize img w h] is [cv2.resize(img, (w, h))]. *)
Class Cv2 : Type := {
  cv2_resize : Image -> Z -> Z -> Image
}.

(** What the stages rely on: a non-empty requested size is the size of the
    output. *)
Definition cv2_sound (C : Cv2) : Prop :=
  forall img w h, 0 < w -> 0 < h -> has_shape (cv2_resize img w h) h w.

(** [cv2.resize(img, None, fx=fx, fy=fy)]: the output size is the rounded
    scaled input size. *)
Definition cv2_resize_scale {C : Cv2} (img : Image) (fx fy : Q) : Image :=
  let '(h, w) := img_shape img in
  cv2_resize img (np_round (inject_Z w * fx)) (np_round (inject_Z h * fy)).

(** A shapely geometry, as far as the stage looks at it: a [Polygon] with the
    coordinates of its closed exterior ring, or any other geometry (empty,
    point, line, multi-part, collection), which has no [exterior]. *)
Inductive geometry : Type :=
| GPolygon (exterior : list point)
| GOther.

Definition Qeqb_point (p q : point) : bool :=
  Qeq_bool (fst p) (fst q) && Qeq_bool (snd p) (snd q).

(** [Polygon(coords)]: the ring is closed by repeating the first vertex unless
    the sequence is closed already. *)
Definition Polygon (coords : list point) : geometry :=
  match coords with
  | [] => GPolygon []
  | p :: _ => if Qeqb_point p (last coords p) then GPolygon coords
              else GPolygon (coords ++ [p])
  end.

(** The operations of shapely that [hand_bounds] calls.  They are total here:
    what shapely itself rejects (a ring of fewer than three vertices, an
    invalid geometry) is outside the model. *)
Class Shapely : Type := {
  intersects : geometry -> geometry -> bool;
  intersection : geometry -> geometry -> geometry;
  area : geometry -> Q
}.

(** The axis-aligned rectangle [[0, w] x [0, h]] built by [hand_bounds]. *)
Definition crop_rectangle (w h : Z) : geometry :=
  Polygon [(0, 0); (inject_Z w, 0); (inject_Z w, inject_Z h); (0, inject_Z h)]%Q.

Definition in_rectangle (w h : Z) (p : point) : Prop :=
  (0 <= fst p /\ fst p <= inject_Z w /\ 0 <= snd p /\ snd p <= inject_Z h)%Q.

(** What the stage relies on: geometries that do not intersect have an
    intersection of area 0, and the exterior ring of an intersection with the
    crop rectangle lies in that rectangle. *)
Definition shapely_sound (K : Shapely) : Prop :=
  (forall a b, intersects a b = false -> (area (intersection a b) == 0)%Q) /\
  (forall w h g ext,
      0 <= w -> 0 <= h ->
      intersection (crop_rectangle w h) g = GPolygon ext ->
      Forall (in_rectangle w h) ext).

(** ** ScalePadImage *)

Module ScalePadImage.
Section Stage.
Context {C : Cv2}.

Record t : Type := { _target_size : Z * Z }.

Definition __call__ (self : t) (data : Data) : result Data :=
  img <- getitem "image" (image data) ;;
  let size := img_shape img in
  let ts := _target_size self in
  let scale := Qmin (inject_Z (fst ts) / inject_Z (fst size))
                    (inject_Z (snd ts) / inject_Z (snd size)) in
  let new_size := (np_round (scale * inject_Z (fst size)),
                   np_round (scale * inject_Z (snd size))) in
  let data := set_image data (cv2_resize img (snd new_size) (fst new_size)) in
  img <- getitem "image" (image data) ;;
  img <- np_pad img (fst ts - fst new_size) (snd ts - snd new_size) ;;
  let data := set_image data img in
  let data := match polys data with
              | Some ps => set_polys data (scale_polys scale ps)
              | None => data
              end in
  Ok (set_shape data [inject_Z (fst size); inject_Z (snd size); scale; scale]).
End Stage.
End ScalePadImage.

(** ** RandomCropWithBBox *)

Module RandomCropWithBBox.
Section Stage.
Context {C : Cv2} {K : Shapely}.

Record t : Type := {
  _crop_size : Z * Z;
  _ratio : Q;
  _max_tries : nat
}.

(** The test of lines 247 and 330: [(poly.max(axis=0) > start).all() and
    (poly.min(axis=0) < end).all()], with [start], [end] in (x, y) order. *)
Definition within_crop (poly : polygon) (start_xy end_xy : Z * Z) : result bool :=
  mx <- poly_max poly ;;
  if Qltb (inject_Z (fst start_xy)) (fst mx) && Qltb (inject_Z (snd start_xy)) (snd mx)
  then
    mn <- poly_min poly ;;
    Ok (Qltb (fst mn) (inject_Z (fst end_xy)) && Qltb (snd mn) (inject_Z (snd end_xy)))
  else Ok false.

(** Lines 304-306: the pixel bounding box [(x_min, x_max, y_min, y_max)]. *)
Definition bbox (poly : polygon) : result (Z * Z * Z * Z) :=
  let points := map (fun p => (Z.max (np_round (fst p)) 0, Z.max (np_round (snd p)) 0)) poly in
  x_min <- amin (map fst points) ;;
  x_top <- amax (map fst points) ;;
  y_min <- amin (map snd points) ;;
  y_top <- amax (map snd points) ;;
  Ok (x_min, x_top + 1, y_min, y_top + 1).

(** Lines 303-312: the marking loop.  [None] is the early return taken at
    the first polygon whose box leaves the image. *)
Fixpoint mark_polys (size : Z * Z) (polys : list polygon) (h_array w_array : list Z)
  : result (option (list Z * list Z)) :=
  match polys with
  | [] => Ok (Some (h_array, w_array))
  | poly :: rest =>
      '(x_min, x_max, y_min, y_max) <- bbox poly ;;
      let w_array := slice_assign w_array x_min x_max 1 in
      let h_array := slice_assign h_array y_min y_max 1 in
      if (x_min <? 0) || (y_min <? 0) || (x_max >? snd size) || (y_max >? fst size)
      then Ok None
      else mark_polys size rest h_array w_array
  end.

(** Line 325: [((end - start) < min_size).any()]. *)
Definition too_small (start end_ min_size : Z * Z) : bool :=
  (fst end_ - fst start <? fst min_size) || (snd end_ - snd start <? snd min_size).

(** Lines 329-331: is some polygon within the candidate window? *)
Fixpoint any_within (polys : list polygon) (start_xy end_xy : Z * Z) : result bool :=
  match polys with
  | [] => Ok false
  | poly :: rest =>
      b <- within_crop poly start_xy end_xy ;;
      if b then Ok true else any_within rest start_xy end_xy
  end.

(** Lines 321-323: one candidate window, [(start, end)] in (y, x) order. *)
Definition sample_window (h_avail w_avail : list Z) (g : RandomState)
  : result ((Z * Z) * (Z * Z) * RandomState) :=
  '(ys, g) <- np_random_choice2 h_avail g ;;
  let y := np_sort2 ys in
  '(xs, g) <- np_random_choice2 w_avail g ;;
  let x := np_sort2 xs in
  Ok ((fst y, fst x), (snd y, snd x), g).

(** Lines 320-331: the search loop; [None] when every attempt failed. *)
Fixpoint search (tries : nat) (min_size : Z * Z) (h_avail w_avail : list Z)
    (polys : list polygon) (g : RandomState)
  : result (option ((Z * Z) * (Z * Z)) * RandomState) :=
  match tries with
  | O => Ok (None, g)
  | S tries =>
      '(start, end_, g) <- sample_window h_avail w_avail g ;;
      if too_small start end_ min_size
      then search tries min_size h_avail w_avail polys g
      else
        found <- any_within polys (snd start, fst start) (snd end_, fst end_) ;;
        if found then Ok (Some (start, end_), g)
        else search tries min_size h_avail w_avail polys g
  end.

(** Line 297: the polygons whose tag is false. *)
Definition not_ignored (ps : list polygon) (tags : list bool) : list polygon :=
  map fst (filter (fun pt => negb (snd pt)) (combine ps tags)).

(** Line 319: [np.ceil(size * self._ratio).astype(np.int32)]. *)
Definition min_size_of (self : t) (size : Z * Z) : Z * Z :=
  (Qceiling (inject_Z (fst size) * _ratio self),
   Qceiling (inject_Z (snd size) * _ratio self)).

Definition _find_crop (self : t) (data : Data) (g : RandomState)
  : result ((Z * Z) * (Z * Z) * bool * RandomState) :=
  img <- getitem "image" (image data) ;;
  let size := img_shape img in
  ps <- getitem "polys" (polys data) ;;
  tags <- getitem "ignore_tags" (ignore_tags data) ;;
  let polys := not_ignored ps tags in
  match polys with
  | [] => Ok ((0, 0), size, false, g)
  | _ :: _ =>
      let h_array := repeat 0 (Z.to_nat (fst size)) in
      let w_array := repeat 0 (Z.to_nat (snd size)) in
      marked <- mark_polys size polys h_array w_array ;;
      match marked with
      | None => Ok ((0, 0), size, true, g)
      | Some (h_array, w_array) =>
          if negb (np_all h_array) && negb (np_all w_array) then
            let h_avail := where_zero h_array in
            let w_avail := where_zero w_array in
            let min_size := min_size_of self size in
            '(found, g) <- search (_max_tries self) min_size h_avail w_avail polys g ;;
            match found with
            | Some (start, end_) => Ok (start, end_, false, g)
            | None => Ok ((0, 0), size, false, g)
            end
          else Ok ((0, 0), size, false, g)
      end
  end.

(** Lines 266-271: the exterior ring without its closing vertex. *)
Definition polygon2numpy (geom : geometry) : result polygon :=
  match geom with
  | GPolygon exterior => Ok (removelast exterior)
  | GOther => Raise AttributeError
  end.

(** Lines 282-289: the repair loop over [zip(polys, dontcare)]. *)
Fixpoint hand_bounds_loop (crop_polys : geometry) (thresh_area : Q)
    (items : list (polygon * bool)) : result (list polygon * list bool) :=
  match items with
  | [] => Ok ([], [])
  | (poly, tag) :: rest =>
      let poly := Polygon poly in
      if intersects crop_polys poly then
        let inter_poly := intersection crop_polys poly in
        if Qle_bool thresh_area (area inter_poly) then
          inter_poly_numpy <- polygon2numpy inter_poly ;;
          '(new_polys, new_dontcare) <- hand_bounds_loop crop_polys thresh_area rest ;;
          Ok (inter_poly_numpy :: new_polys, tag :: new_dontcare)
        else hand_bounds_loop crop_polys thresh_area rest
      else hand_bounds_loop crop_polys thresh_area rest
  end.

Definition hand_bounds_with (data : Data) (thresh_area : Q) : result Data :=
  img <- getitem "image" (image data) ;;
  let '(h, w) := img_shape img in
  polys <- getitem "polys" (polys data) ;;
  dontcare <- getitem "ignore_tags" (ignore_tags data) ;;
  let crop_polys := crop_rectangle w h in
  '(new_polys, new_dontcare) <-
    hand_bounds_loop crop_polys thresh_area (combine polys dontcare) ;;
  let data := set_polys data new_polys in
  Ok (set_ignore_tags data new_dontcare).

(** [hand_bounds(data)] with the default [thresh_area=8]. *)
Definition hand_bounds (data : Data) : result Data := hand_bounds_with data 8.

(** Lines 245-250: the retention loop; [_id] is the index of the head of
    [rest] in [data['polys']]. *)
Fixpoint retain_loop (data : Data) (start_xy end_xy : Z * Z) (scale : Q)
    (_id : nat) (rest : list polygon)
  : result (list polygon * list string * list bool) :=
  match rest with
  | [] => Ok ([], [], [])
  | poly :: rest =>
      b <- within_crop poly start_xy end_xy ;;
      if b then
        ts <- getitem "texts" (texts data) ;;
        text <- index ts _id ;;
        tags <- getitem "ignore_tags" (ignore_tags data) ;;
        tag <- index tags _id ;;
        '(new_polys, new_texts, new_ignores) <-
          retain_loop data start_xy end_xy scale (S _id) rest ;;
        Ok (shift_scale start_xy scale poly :: new_polys,
            text :: new_texts, tag :: new_ignores)
      else retain_loop data start_xy end_xy scale (S _id) rest
  end.

Definition __call__ (self : t) (data : Data) (g : RandomState)
  : result (Data * RandomState) :=
  '(start, end_, is_out_bounds, g) <- _find_crop self data g ;;
  let cs := _crop_size self in
  let scale := Qmin (inject_Z (fst cs) / inject_Z (fst end_ - fst start))
                    (inject_Z (snd cs) / inject_Z (snd end_ - snd start)) in
  img <- getitem "image" (image data) ;;
  let data := set_image data
    (cv2_resize_scale (slice2d img (fst start) (fst end_) (snd start) (snd end_))
                      scale scale) in
  let start_xy := (snd start, fst start) in
  let end_xy := (snd end_, fst end_) in
  ps <- getitem "polys" (polys data) ;;
  '(new_polys, new_texts, new_ignores) <- retain_loop data start_xy end_xy scale 0 ps ;;
  let data := set_polys data new_polys in
  let data := set_texts data new_texts in
  let data := set_ignore_tags data new_ignores in
  data <- (if is_out_bounds : bool then hand_bounds data else Ok data) ;;
  img <- getitem "image" (image data) ;;
  let '(h, w) := img_shape img in
  img <- np_pad img (fst cs - h) (snd cs - w) ;;
  Ok (set_image data img, g).
End Stage.
End RandomCropWithBBox.

(** ** A runnable instance of the collaborators *)

Definition zrange (n : Z) : list Z := map Z.of_nat (seq 0 (Z.to_nat n)).

(** Nearest-neighbour resampling. *)
Definition nn_resize (img : Image) (w h : Z) : Image :=
  let '(H, W) := img_shape img in
  map (fun i =>
         map (fun j => nth (Z.to_nat (j * W / w)) (nth (Z.to_nat (i * H / h)) img []) [])
             (zrange w))
      (zrange h).

Definition nn_cv2 : Cv2 := {| cv2_resize := nn_resize |}.

(** Clipping of a convex polygon against an axis-aligned box, one half-plane
    at a time (Sutherland-Hodgman). *)
Section Clip.
Variable inside : point -> bool.
Variable cut : point -> point -> point.

Definition clip_step (prev cur : point) : list point :=
  if inside cur
  then if inside prev then [cur] else [cut prev cur; cur]
  else if inside prev then [cut prev cur] else [].

Fixpoint clip_from (prev : point) (vs : list point) : list point :=
  match vs with
  | [] => []
  | cur :: rest => clip_step prev cur ++ clip_from cur rest
  end.

Definition clip_halfplane (vs : list point) : list point :=
  match vs with
  | [] => []
  | v :: _ => clip_from (last vs v) vs
  end.
End Clip.

(** Where the segment [p q] meets the line [x = c], resp. [y = c]. *)
Definition cut_x (c : Q) (p q : point) : point :=
  (c, snd p + (snd q - snd p) * ((c - fst p) / (fst q - fst p)))%Q.

Definition cut_y (c : Q) (p q : point) : point :=
  (fst p + (fst q - fst p) * ((c - snd p) / (snd q - snd p)), c)%Q.

Definition clip_box (lo hi : point) (vs : list point) : list point :=
  let vs := clip_halfplane (fun p => Qle_bool (fst lo) (fst p)) (cut_x (fst lo)) vs in
  let vs := clip_halfplane (fun p => Qle_bool (fst p) (fst hi)) (cut_x (fst hi)) vs in
  let vs := clip_halfplane (fun p => Qle_bool (snd lo) (snd p)) (cut_y (snd lo)) vs in
  clip_halfplane (fun p => Qle_bool (snd p) (snd hi)) (cut_y (snd hi)) vs.

(** [p] lies in the box of corners [lo] and [hi]. *)
Definition in_box (lo hi p : point) : Prop :=
  (fst lo <= fst p /\ fst p <= fst hi /\ snd lo <= snd p /\ snd p <= snd hi)%Q.

Definition ring_vertices (g : geometry) : list point :=
  match g with
  | GPolygon exterior => removelast exterior
  | GOther => []
  end.

(** The first operand is taken to be an axis-aligned box (its own bounding
    box), the second a convex polygon. *)
Definition clip_intersection (a b : geometry) : geometry :=
  match poly_min (ring_vertices a), poly_max (ring_vertices a) with
  | Ok lo, Ok hi =>
      match clip_box lo hi (ring_vertices b) with
      | [] => GOther
      | v :: rest => GPolygon ((v :: rest) ++ [v])
      end
  | _, _ => GOther
  end.

(** Shoelace formula on a closed ring. *)
Fixpoint shoelace_from (prev : point) (vs : list point) : Q :=
  match vs with
  | [] => 0
  | cur :: rest => (fst prev * snd cur - fst cur * snd prev) + shoelace_from cur rest
  end%Q.

Definition ring_area (exterior : list point) : Q :=
  match exterior with
  | [] => 0
  | v :: rest => Qabs (shoelace_from v rest) / 2
  end%Q.

Definition clip_shapely : Shapely := {|
  intersects a b :=
    match clip_intersection a b with GPolygon _ => true | GOther => false end;
  intersection := clip_intersection;
  area g := match g with GPolygon exterior => ring_area exterior | GOther => 0%Q end
|}.

(** ** The claims' notions *)

(** [polys], [texts] and [ignore_tags] are present and of one length. *)
Definition aligned (d : Data) : Prop :=
  exists ps ts tags,
    polys d = Some ps /\ texts d = Some ts /\ ignore_tags d = Some tags /\
    length ps = length ts /\ length ps = length tags.

Definition nonempty_polys (ps : list polygon) : Prop := Forall (fun p => p <> []) ps.

(** Position [i] of the width (resp. height) axis lies in the span of the
    bounding box of [poly]. *)
Definition covers_x (i : Z) (poly : polygon) : bool :=
  match RandomCropWithBBox.bbox poly with
  | Ok (x_min, x_max, _, _) => (x_min <=? i) && (i <? x_max)
  | Raise _ => false
  end.

Definition covers_y (i : Z) (poly : polygon) : bool :=
  match RandomCropWithBBox.bbox poly with
  | Ok (_, _, y_min, y_max) => (y_min <=? i) && (i <? y_max)
  | Raise _ => false
  end.

(** Position [i] is occupied by the box of some polygon of [nonign]. *)
Definition occupied_x (nonign : list polygon) (i : Z) : bool := existsb (covers_x i) nonign.
Definition occupied_y (nonign : list polygon) (i : Z) : bool := existsb (covers_y i) nonign.

(** The bounding box of [poly] exceeds an image of [size = (H, W)]. *)
Definition exceeds (size : Z * Z) (poly : polygon) : bool :=
  match RandomCropWithBBox.bbox poly with
  | Ok (_, x_max, _, y_max) => (x_max >? snd size) || (y_max >? fst size)
  | Raise _ => false
  end.

(** Rounded pixel coordinates of a vertex, clamped at 0 from below. *)
Definition pixel_x (v : point) : Z := Z.max (np_round (fst v)) 0.
Definition pixel_y (v : point) : Z := Z.max (np_round (snd v)) 0.

(** A window found by the search: its endpoints are available positions,
    sorted on each axis, and it passed the size test. *)
Definition sampled_window (min_size : Z * Z) (h_avail w_avail : list Z)
    (start end_ : Z * Z) : Prop :=
  In (fst start) h_avail /\ In (fst end_) h_avail /\ fst start <= fst end_ /\
  In (snd start) w_avail /\ In (snd end_) w_avail /\ snd start <= snd end_ /\
  RandomCropWithBBox.too_small start end_ min_size = false.

(** On each axis the endpoints of the window are free positions of the image
    and the span passed the size test. *)
Definition free_window (size min_size : Z * Z) (nonign : list polygon)
    (start end_ : Z * Z) : Prop :=
  0 <= fst start <= fst end_ /\ fst end_ < fst size /\
  0 <= snd start <= snd end_ /\ snd end_ < snd size /\
  occupied_y nonign (fst start) = false /\ occupied_y nonign (fst end_) = false /\
  occupied_x nonign (snd start) = false /\ occupied_x nonign (snd end_) = false /\
  fst min_size <= fst end_ - fst start /\ snd min_size <= snd end_ - snd start.

(** The retention test of line 247 as a boolean; a polygon without vertices
    makes the stage fail and is not retained. *)
Definition inside_crop (start_xy end_xy : Z * Z) (poly : polygon) : bool :=
  match RandomCropWithBBox.within_crop poly start_xy end_xy with
  | Ok b => b
  | Raise _ => false
  end.

(** The entries of a per-instance array [xs] whose polygon is retained. *)
Definition keep_aligned {A : Type} (start_xy end_xy : Z * Z)
    (ps : list polygon) (xs : list A) : list A :=
  map snd (filter (fun it => inside_crop start_xy end_xy (fst it)) (combine ps xs)).

(** Boundary repair of one polygon against the rectangle [[0, w] x [0, h]]:
    the area of its intersection, whether it is kept under [thresh_area], and
    the vertices that replace it. *)
Definition repair_area {K : Shapely} (w h : Z) (poly : polygon) : Q :=
  area (intersection (crop_rectangle w h) (Polygon poly)).

Definition repair_keeps {K : Shapely} (thresh_area : Q) (w h : Z) (poly : polygon) : bool :=
  Qle_bool thresh_area (repair_area w h poly).

Definition repaired {K : Shapely} (w h : Z) (poly : polygon) : polygon :=
  match intersection (crop_rectangle w h) (Polygon poly) with
  | GPolygon exterior => removelast exterior
  | GOther => []
  end.

(** The intersection is a single polygon, so that it has an exterior ring. *)
Definition single_polygon {K : Shapely} (w h : Z) (poly : polygon) : Prop :=
  exists exterior, intersection (crop_rectangle w h) (Polygon poly) = GPolygon exterior.

(** The stages of [RandomCropWithBBox.__call__]: the scale factor of line 240,
    the resized crop of line 242, and the record after the retention loop. *)
Definition crop_scale (self : RandomCropWithBBox.t) (start end_ : Z * Z) : Q :=
  Qmin (inject_Z (fst (RandomCropWithBBox._crop_size self)) / inject_Z (fst end_ - fst start))
       (inject_Z (snd (RandomCropWithBBox._crop_size self)) / inject_Z (snd end_ - snd start)).

Definition resized_crop {C : Cv2} (self : RandomCropWithBBox.t) (img : Image)
    (start end_ : Z * Z) : Image :=
  cv2_resize_scale (slice2d img (fst start) (fst end_) (snd start) (snd end_))
                   (crop_scale self start end_) (crop_scale self start end_).

Definition retained_record (data : Data) (resized : Image)
    (new_polys : list polygon) (new_texts : list string) (new_ignores : list bool) : Data :=
  mkData (Some resized) (Some new_polys) (Some new_texts) (Some new_ignores) (shape data).


(** Step 5a of the specification, in its own words: the two indices of each
    axis are sampled without replacement, hence are distinct. *)
Definition samples_distinct : Prop :=
  forall h_avail w_avail g start end_ g',
    RandomCropWithBBox.sample_window h_avail w_avail g = Ok (start, end_, g') ->
    fst start <> fst end_ /\ snd start <> snd end_.

(** ** Sample configurations and records *)

Definition identity_tape : RandomState := mkRandomState (fun n => n) 0.
Definition stride_tape : RandomState := mkRandomState (fun n => n * 7 + 3)%nat 0.

Definition crop100 : RandomCropWithBBox.t :=
  {| RandomCropWithBBox._crop_size := (100, 100);
     RandomCropWithBBox._ratio := 1 # 10;
     RandomCropWithBBox._max_tries := 10 |}.

Definition blank (h w : nat) : Image := repeat (repeat [0; 0; 0] w) h.

(** Scenario A: one polygon well inside a 100 x 200 image. *)
Definition scenario_A : Data :=
  mkData (Some (blank 100 200))
         (Some [[(10, 10); (50, 10); (50, 40); (10, 40)]%Q])
         (Some ["text"%string]) (Some [false]) None.

(** Scenario B: the polygon covers every column of the image. *)
Definition scenario_B : Data :=
  mkData (Some (blank 100 200))
         (Some [[(0, 10); (199, 10); (199, 40); (0, 40)]%Q])
         (Some ["text"%string]) (Some [false]) None.


(** Scenario D: a 480 x 320 image for [ScalePadImage(target_size=[640, 640])]. *)
Definition scenario_D : Data := mkData (Some (blank 480 320)) None None None None.

Definition pad640 : ScalePadImage.t := {| ScalePadImage._target_size := (640, 640) |}.

Definition crop64 : RandomCropWithBBox.t :=
  {| RandomCropWithBBox._crop_size := (64, 64);
     RandomCropWithBBox._ratio := 1 # 10;
     RandomCropWithBBox._max_tries := 10 |}.

(** A polygon that reaches [x = 150] in a 100 x 100 image, and a small one of
    area 4 inside the image. *)
Definition wide_polygon : polygon := [(50, 50); (150, 50); (150, 80); (50, 80)]%Q.
Definition small_polygon : polygon := [(10, 10); (12, 10); (12, 12); (10, 12)]%Q.

(** Two labelled instances; the box of the second one leaves the image. *)
Definition overhang_record : Data :=
  mkData (Some (blank 100 100)) (Some [small_polygon; wide_polygon])
         (Some ["B"%string; "A"%string]) (Some [false; false]) None.

(** One ignored instance that leaves the image. *)
Definition ignored_overhang_record : Data :=
  mkData (Some (blank 100 100)) (Some [wide_polygon])
         (Some ["A"%string]) (Some [true]) None.



(** ** Further notions *)



(** ** Further stages of the pipeline

    [GridResize] and [RandomScale], the two other resize stages of the same
    source file.  Both call [cv2.resize] with scale factors, and both guard
    the polygon update with ['polys' in data]. *)

(** [polys * (sx, sy)]: the last axis is broadcast, x with [sx], y with [sy]. *)
Definition scale_point_xy (sx sy : Q) (p : point) : point := ((fst p * sx)%Q, (snd p * sy)%Q).

Definition scale_polys_xy (sx sy : Q) (ps : list polygon) : list polygon :=
  map (map (scale_point_xy sx sy)) ps.

(** [np.random.random_sample()]: one raw draw, reduced to a 53-bit fraction
    of the half-open interval [[0, 1)]. *)
Definition random_sample (g : RandomState) : Q * RandomState :=
  (Qmake (Z.of_nat (tape g (pos g)) mod 2 ^ 53) (2 ^ 53),
   mkRandomState (tape g) (S (pos g))).

(** [np.random.uniform(low, high)] is [low + (high - low) * random_sample()]. *)
Definition np_random_uniform (low high : Q) (g : RandomState) : Q * RandomState :=
  let '(u, g') := random_sample g in ((low + (high - low) * u)%Q, g').

Module GridResize.
Section Stage.
Context {C : Cv2}.

Record t : Type := { _factor : Z }.

(** One entry of [np.ceil(size / factor) * factor / size]. *)
Definition grid_scale (self : t) (n : Z) : Q :=
  (inject_Z (Qceiling (inject_Z n / inject_Z (_factor self))) * inject_Z (_factor self)
   / inject_Z n)%Q.

Definition __call__ (self : t) (data : Data) : result Data :=
  img <- getitem "image" (image data) ;;
  let size := img_shape img in
  let scale := (grid_scale self (fst size), grid_scale self (snd size)) in
  img <- getitem "image" (image data) ;;
  let data := set_image data (cv2_resize_scale img (snd scale) (fst scale)) in
  let data := match polys data with
              | Some ps => set_polys data (scale_polys_xy (snd scale) (fst scale) ps)
              | None => data
              end in
  Ok data.
End Stage.
End GridResize.

Module RandomScale.
Section Stage.
Context {C : Cv2}.

Record t : Type := { _range : Q * Q }.

(** The factor is drawn before the record is looked at. *)
Definition __call__ (self : t) (data : Data) (g : RandomState)
  : result (Data * RandomState) :=
  let '(scale, g) := np_random_uniform (fst (_range self)) (snd (_range self)) g in
  img <- getitem "image" (image data) ;;
  let data := set_image data (cv2_resize_scale img scale scale) in
  let data := match polys data with
              | Some ps => set_polys data (scale_polys scale ps)
              | None => data
              end in
  Ok (data, g).
End Stage.
End RandomScale.

(** The size [GridResize] asks for along an axis of [n] pixels. *)
Definition grid_size (factor n : Z) : Z :=
  Qceiling (inject_Z n / inject_Z factor) * factor.

Definition grid32 : GridResize.t := {| GridResize._factor := 32 |}.


(** ** NormalizeImage, ToCHWImage and PackLoaderInputs

    The three stages that close a pipeline.  [NormalizeImage] turns the
    integer raster into a float one: the record it returns is an [FData],
    the same keys with a float raster under ['image']. *)

Abbreviation FImage := (list (list (list Q))) (only parsing).

Record FData : Type := mkFData {
  fimage : option FImage;
  fpolys : option (list polygon);
  ftexts : option (list string);
  fignore_tags : option (list bool);
  fshape : option (list Q)
}.

(** [data['image'] = v] for a float raster [v]. *)
Definition set_fimage (d : Data) (v : FImage) : FData :=
  mkFData (Some v) (polys d) (texts d) (ignore_tags d) (shape d).

(** [str.lower], on ASCII letters. *)
Definition lower_ascii (c : Ascii.ascii) : Ascii.ascii :=
  let n := Ascii.nat_of_ascii c in
  if ((65 <=? n) && (n <=? 90))%nat then Ascii.ascii_of_nat (n + 32) else c.

Fixpoint lower (s : string) : string :=
  match s with
  | EmptyString => EmptyString
  | String c r => String (lower_ascii c) (lower r)
  end.

(** What a caller may pass as [mean] or [std]: a string, a list of numbers,
    or a value of any other type (a tuple, a number, [None]). *)
Inductive pyvalue : Type :=
| PStr (s : string)
| PList (l : list Q)
| POther.

(** The [name] argument of [_get_value]: ['mean'] or ['std'] at both call
    sites, so that the assertion on it never fails. *)
Inductive value_name : Type :=
| name_mean
| name_std.

(** [np.array(val).reshape(shape)] for the two shapes [(1, 1, 3)] and
    [(3, 1, 1)]: the three entries in order, and a [ValueError] for an array
    of another size. *)
Definition reshape3 (val : list Q) : result (list Q) :=
  if (length val =? 3)%nat then Ok val else Raise ValueError.

(** [img[..., [2, 1, 0]]] and [img[[2, 1, 0], ...]]: index 2 must exist on
    the indexed axis. *)
Definition take_210_last (img : Image) : result Image :=
  if (img_channels img <? 3)%nat then Raise IndexError
  else Ok (map (map (fun px => [nth 2 px 0; nth 1 px 0; nth 0 px 0])) img).

Definition take_210_first (img : Image) : result Image :=
  if (length img <? 3)%nat then Raise IndexError
  else Ok [nth 2 img []; nth 1 img []; nth 0 img []].

(** [(x.astype('float32') - m) / s] on one sample. *)
Definition norm_sample (x : Z) (m s : Q) : Q := ((inject_Z x - m) / s)%Q.

(** [(img.astype('float32') - mean) / std] with [mean] and [std] of shape
    [(1, 1, 3)]: the last axis of [img] has size 3, or size 1 and is
    repeated; any other size cannot be broadcast. *)
Definition normalize_last (mean std : list Q) (img : Image) : result FImage :=
  let C := img_channels img in
  if ((C =? 3) || (C =? 1))%nat then
    Ok (map (map (fun px =>
                    map (fun c => norm_sample (nth (if (C =? 1)%nat then 0%nat else c) px 0)
                                              (nth c mean 0%Q) (nth c std 0%Q))
                        (seq 0 3))) img)
  else Raise ValueError.

(** The same with [mean] and [std] of shape [(3, 1, 1)], for a raster whose
    first axis is the channel. *)
Definition normalize_first (mean std : list Q) (img : Image) : result FImage :=
  let C := length img in
  if ((C =? 3) || (C =? 1))%nat then
    Ok (map (fun c => map (map (fun x => norm_sample x (nth c mean 0%Q) (nth c std 0%Q)))
                          (nth (if (C =? 1)%nat then 0%nat else c) img []))
            (seq 0 3))
  else Raise ValueError.

(** [img.transpose((2, 0, 1))] of a raster with [C] entries on its last
    axis. *)
Definition transpose_201 {A : Type} (d : A) (C : nat) (img : list (list (list A)))
  : list (list (list A)) :=
  map (fun c => map (map (fun px => nth c px d)) img) (seq 0 C).

Module NormalizeImage.
Section Stage.
(** The two constants of [mindocr/data/constants.py]. *)
Context (IMAGENET_DEFAULT_MEAN IMAGENET_DEFAULT_STD : list Q).

Record t : Type := {
  _channel_conversion : bool;
  mean : list Q;
  std : list Q;
  is_hwc : bool
}.

Definition _get_value (val : pyvalue) (name : value_name) : result (list Q) :=
  match val with
  | PStr s =>
      if String.eqb (lower s) "imagenet" then
        Ok (match name with
            | name_mean => IMAGENET_DEFAULT_MEAN
            | name_std => IMAGENET_DEFAULT_STD
            end)
      else Raise ValueError
  | PList l => Ok l
  | POther => Raise ValueError
  end.

Definition __init__ (mean std : pyvalue) (is_hwc bgr_to_rgb rgb_to_bgr : bool) : result t :=
  let conversion := bgr_to_rgb || rgb_to_bgr in
  m <- (v <- _get_value mean name_mean ;; reshape3 v) ;;
  s <- (v <- _get_value std name_std ;; reshape3 v) ;;
  Ok {| _channel_conversion := conversion; mean := m; std := s; is_hwc := is_hwc |}.

Definition __call__ (self : t) (data : Data) : result FData :=
  img <- getitem "image" (image data) ;;
  img <- (if _channel_conversion self then
            if is_hwc self then take_210_last img else take_210_first img
          else Ok img) ;;
  out <- (if is_hwc self then normalize_last (mean self) (std self) img
          else normalize_first (mean self) (std self) img) ;;
  Ok (set_fimage data out).
End Stage.
End NormalizeImage.

Module ToCHWImage.
Record t : Type := {}.

Definition __call__ (self : t) (data : Data) : result Data :=
  img <- getitem "image" (image data) ;;
  Ok (set_image data (transpose_201 0 (img_channels img) img)).

(** The same call on a record whose image is a float raster. *)
Definition call_f32 (self : t) (data : FData) : result FData :=
  img <- getitem "image" (fimage data) ;;
  Ok (mkFData (Some (transpose_201 0%Q (length (hd [] (hd [] img))) img))
              (fpolys data) (ftexts data) (fignore_tags data) (fshape data)).
End ToCHWImage.

(** The outcome of a stage that checks its input with [assert]. *)
Inductive checked (A : Type) : Type :=
| Done (a : A)
| AssertionError (key : string).

Arguments Done {A} a.
Arguments AssertionError {A} key.

Module PackLoaderInputs.
Section Stage.
(** The values of the dict; the dict itself is its lookup function. *)
Context {V : Type}.

Record t : Type := { output_columns : list string }.

(** The loop over [output_columns], with the list [out] built so far. *)
Fixpoint pack (data : string -> option V) (columns : list string) (out : list V)
  : checked (list V) :=
  match columns with
  | [] => Done out
  | k :: rest =>
      match data k with
      | None => AssertionError k
      | Some v => pack data rest (out ++ [v])
      end
  end.

Definition __call__ (self : t) (data : string -> option V) : checked (list V) :=
  pack data (output_columns self) [].
End Stage.
End PackLoaderInputs.

(** The values a [Data] record holds, and the record read as a dict. *)
Inductive value : Type :=
| VImage (v : Image)
| VPolys (v : list polygon)
| VTexts (v : list string)
| VTags (v : list bool)
| VShape (v : list Q).

Definition as_dict (d : Data) (k : string) : option value :=
  if String.eqb k "image" then option_map VImage (image d)
  else if String.eqb k "polys" then option_map VPolys (polys d)
  else if String.eqb k "texts" then option_map VTexts (texts d)
  else if String.eqb k "ignore_tags" then option_map VTags (ignore_tags d)
  else if String.eqb k "shape" then option_map VShape (shape d)
  else None.

(** What [NormalizeImage.__init__] accepts for [mean] or [std], given the
    constant the string stands for. *)
Definition accepted (constant : list Q) (val : pyvalue) : Prop :=
  match val with
  | PStr s => lower s = "imagenet"%string /\ length constant = 3%nat
  | PList l => length l = 3%nat
  | POther => False
  end.

(** The value a [mean] or [std] argument resolves to. *)
Definition resolved (constant : list Q) (val : pyvalue) : list Q :=
  match val with
  | PList l => l
  | _ => constant
  end.

Definition rgb_pixel_image : Image := [[[10; 20; 30]; [40; 50; 60]]].

Definition half_mean : list Q := [(1 # 2)%Q; 1%Q; 2%Q].
Definition half_std : list Q := [2%Q; 4%Q; 5%Q].

Definition normalize_hwc (conversion : bool) : NormalizeImage.t :=
  {| NormalizeImage._channel_conversion := conversion;
     NormalizeImage.mean := half_mean; NormalizeImage.std := half_std;
     NormalizeImage.is_hwc := true |}.

Definition to_chw : ToCHWImage.t := ToCHWImage.Build_t.

(** * Properties *)

(** ** Arithmetic of rounding *)

Lemma np_round_floor (q : Q) : Qfloor q <= np_round q <= Qfloor q + 1.
Proof.
  unfold np_round. destruct (q - inject_Z (Qfloor q) ?= 1 # 2)%Q; [|lia|lia].
  destruct (Z.even (Qfloor q)); lia.
Qed.

Lemma np_round_le (q : Q) (n : Z) : (q <= inject_Z n)%Q -> np_round q <= n.
Proof.
  intros Hq.
  assert (Hf : (inject_Z (Qfloor q) <= q)%Q) by apply Qfloor_le.
  assert (Hfn : Qfloor q <= n) by (rewrite Zle_Qle; lra).
  unfold np_round.
  destruct (q - inject_Z (Qfloor q) ?= 1 # 2)%Q eqn:E.
  - apply Qeq_alt in E.
    assert (Qfloor q < n) by (rewrite Zlt_Qlt; lra).
    destruct (Z.even (Qfloor q)); lia.
  - exact Hfn.
  - apply Qgt_alt in E.
    assert (Qfloor q < n) by (rewrite Zlt_Qlt; lra). lia.
Qed.

Lemma np_round_ge (q : Q) (n : Z) : (inject_Z n <= q)%Q -> n <= np_round q.
Proof.
  intros Hq.
  assert (n <= Qfloor q).
  { rewrite <- (Qfloor_Z n). now apply Qfloor_resp_le. }
  pose proof (np_round_floor q). lia.
Qed.

Lemma np_round_Z (n : Z) : np_round (inject_Z n) = n.
Proof.
  pose proof (np_round_le (inject_Z n) n ltac:(lra)).
  pose proof (np_round_ge (inject_Z n) n ltac:(lra)). lia.
Qed.


(** ** List utilities of the numpy model *)

Lemma fold_left_Zmin_spec (r : list Z) (x : Z) :
  In (fold_left Z.min r x) (x :: r) /\ Forall (fun y => fold_left Z.min r x <= y) (x :: r).
Proof.
  revert x. induction r as [|a r IH]; intros x; simpl.
  - split; [now left | repeat constructor; lia].
  - destruct (IH (Z.min x a)) as [Hin Hall]. split.
    + destruct Hin as [Hin | Hin]; [|now right; right].
      rewrite <- Hin. destruct (Z.min_spec x a) as [[_ E] | [_ E]]; rewrite E; auto.
    + inversion Hall as [|? ? Hh Ht]; subst.
      constructor; [lia|]. constructor; [lia | exact Ht].
Qed.

Lemma fold_left_Zmax_spec (r : list Z) (x : Z) :
  In (fold_left Z.max r x) (x :: r) /\ Forall (fun y => y <= fold_left Z.max r x) (x :: r).
Proof.
  revert x. induction r as [|a r IH]; intros x; simpl.
  - split; [now left | repeat constructor; lia].
  - destruct (IH (Z.max x a)) as [Hin Hall]. split.
    + destruct Hin as [Hin | Hin]; [|now right; right].
      rewrite <- Hin. destruct (Z.max_spec x a) as [[_ E] | [_ E]]; rewrite E; auto.
    + inversion Hall as [|? ? Hh Ht]; subst.
      constructor; [lia|]. constructor; [lia | exact Ht].
Qed.

Lemma amin_spec (a : list Z) :
  a <> [] -> exists m, amin a = Ok m /\ In m a /\ Forall (fun y => m <= y) a.
Proof.
  destruct a as [|x r]; [congruence|]. intros _.
  exists (fold_left Z.min r x). split; [reflexivity|]. apply fold_left_Zmin_spec.
Qed.

Lemma amax_spec (a : list Z) :
  a <> [] -> exists m, amax a = Ok m /\ In m a /\ Forall (fun y => y <= m) a.
Proof.
  destruct a as [|x r]; [congruence|]. intros _.
  exists (fold_left Z.max r x). split; [reflexivity|]. apply fold_left_Zmax_spec.
Qed.

Lemma slice_assign_from_length (i lo hi v : Z) (a : list Z) :
  length (slice_assign_from i lo hi v a) = length a.
Proof. revert i. induction a as [|x r IH]; intros i; simpl; [reflexivity | now rewrite IH]. Qed.

Lemma slice_assign_from_nth (a : list Z) (i lo hi v : Z) (k : nat) :
  (k < length a)%nat ->
  nth k (slice_assign_from i lo hi v a) 0 =
  if (lo <=? i + Z.of_nat k) && (i + Z.of_nat k <? hi) then v else nth k a 0.
Proof.
  revert i k. induction a as [|x r IH]; intros i k Hk; simpl in Hk; [lia|].
  destruct k as [|k]; simpl.
  - now rewrite Z.add_0_r.
  - rewrite IH by lia. now replace (i + 1 + Z.of_nat k) with (i + Z.pos (Pos.of_succ_nat k)) by lia.
Qed.

Lemma slice_assign_length (a : list Z) (lo hi v : Z) :
  length (slice_assign a lo hi v) = length a.
Proof. apply slice_assign_from_length. Qed.

Lemma slice_assign_nth (a : list Z) (lo hi v : Z) (k : nat) :
  (k < length a)%nat ->
  nth k (slice_assign a lo hi v) 0 =
  if (lo <=? Z.of_nat k) && (Z.of_nat k <? hi) then v else nth k a 0.
Proof. intros Hk. unfold slice_assign. now rewrite slice_assign_from_nth. Qed.

Lemma where_zero_from_spec (a : list Z) (i j : Z) :
  In j (where_zero_from i a) <->
  exists k, (k < length a)%nat /\ j = i + Z.of_nat k /\ nth k a 1 = 0.
Proof.
  revert i. induction a as [|x r IH]; intros i; simpl.
  - split; [tauto | intros (k & Hk & _); lia].
  - split.
    + intros Hin.
      assert (Hcases : (x = 0 /\ j = i) \/ In j (where_zero_from (i + 1) r)).
      { destruct (x =? 0) eqn:E; [|now right].
        apply Z.eqb_eq in E. destruct Hin as [<- | Hin]; [now left | now right]. }
      destruct Hcases as [[Hx ->] | Hrec].
      * exists 0%nat. repeat split; [lia | lia | exact Hx].
      * apply IH in Hrec. destruct Hrec as (k & Hk & -> & Hz).
        exists (S k). repeat split; [lia | lia | exact Hz].
    + intros ([|k] & Hk & -> & Hz).
      * simpl in Hz. subst x. simpl. left. lia.
      * assert (Hrec : In (i + Z.of_nat (S k)) (where_zero_from (i + 1) r)).
        { apply IH. exists k. repeat split; [lia | lia | exact Hz]. }
        destruct (x =? 0); [now right | exact Hrec].
Qed.

Lemma where_zero_spec (a : list Z) (j : Z) :
  In j (where_zero a) <-> 0 <= j < Z.of_nat (length a) /\ nth (Z.to_nat j) a 1 = 0.
Proof.
  unfold where_zero. rewrite where_zero_from_spec. split.
  - intros (k & Hk & -> & Hz). simpl. rewrite Nat2Z.id. split; [lia | exact Hz].
  - intros [Hj Hz]. exists (Z.to_nat j). repeat split; [lia | lia | exact Hz].
Qed.

Lemma np_all_false (a : list Z) :
  np_all a = false -> where_zero a <> [].
Proof.
  unfold np_all, where_zero.
  assert (H : forall i, forallb (fun x => negb (x =? 0)) a = false -> where_zero_from i a <> []).
  { induction a as [|x r IH]; intros i; simpl; [discriminate|].
    destruct (x =? 0); simpl; [discriminate | apply IH]. }
  apply H.
Qed.

Lemma np_all_true (a : list Z) :
  np_all a = true <-> (forall k, (k < length a)%nat -> nth k a 0 <> 0).
Proof.
  unfold np_all. induction a as [|x r IH]; simpl.
  - split; [intros _ k Hk; lia | reflexivity].
  - rewrite andb_true_iff, IH, negb_true_iff, Z.eqb_neq. split.
    + intros [Hx Hr] [|k] Hk; [exact Hx | apply Hr; lia].
    + intros H. split; [apply (H 0%nat); lia | intros k Hk; apply (H (S k)); lia].
Qed.

(** ** The size test of the search (C9) *)

Import RandomCropWithBBox.




(** ** Sampling of a candidate window (C6) *)

(** With a single free position on each axis the two samples of an axis are
    that position twice. *)
Lemma C6_counterexample : ~ samples_distinct.
Proof.
  intros H.
  destruct (H [5] [7] identity_tape (5, 7) (5, 7) (mkRandomState (fun n => n) 4) eq_refl)
    as [Hy _].
  now apply Hy.
Qed.

Lemma np_random_choice2_spec (a : list Z) (g : RandomState) :
  a <> [] ->
  np_random_choice2 a g =
    Ok ((nth (tape g (pos g) mod length a) a 0, nth (tape g (S (pos g)) mod length a) a 0),
        mkRandomState (tape g) (S (S (pos g)))).
Proof. destruct a; [congruence | reflexivity]. Qed.

Lemma nth_mod_In (a : list Z) (k : nat) : a <> [] -> In (nth (k mod length a) a 0) a.
Proof.
  intros Ha. apply nth_In. apply Nat.mod_upper_bound.
  destruct a; [congruence | simpl; lia].
Qed.

Lemma np_sort2_In (a : list Z) (p : Z * Z) :
  In (fst p) a -> In (snd p) a ->
  In (fst (np_sort2 p)) a /\ In (snd (np_sort2 p)) a /\ fst (np_sort2 p) <= snd (np_sort2 p).
Proof.
  intros H1 H2. unfold np_sort2; simpl.
  destruct (Z.min_spec (fst p) (snd p)) as [[? ->] | [? ->]];
    destruct (Z.max_spec (fst p) (snd p)) as [[? ->] | [? ->]]; repeat split; auto; lia.
Qed.

Lemma sample_window_run (h_avail w_avail : list Z) (g : RandomState) :
  h_avail <> [] -> w_avail <> [] ->
  sample_window h_avail w_avail g =
    Ok ((fst (np_sort2 (nth (tape g (pos g) mod length h_avail) h_avail 0,
                        nth (tape g (1 + pos g) mod length h_avail) h_avail 0)),
         fst (np_sort2 (nth (tape g (2 + pos g) mod length w_avail) w_avail 0,
                        nth (tape g (3 + pos g) mod length w_avail) w_avail 0))),
        (snd (np_sort2 (nth (tape g (pos g) mod length h_avail) h_avail 0,
                        nth (tape g (1 + pos g) mod length h_avail) h_avail 0)),
         snd (np_sort2 (nth (tape g (2 + pos g) mod length w_avail) w_avail 0,
                        nth (tape g (3 + pos g) mod length w_avail) w_avail 0))),
        mkRandomState (tape g) (4 + pos g)).
Proof.
  intros Hh Hw. unfold sample_window.
  rewrite (np_random_choice2_spec h_avail g Hh). cbn [bind].
  rewrite (np_random_choice2_spec w_avail _ Hw). reflexivity.
Qed.

Lemma sample_window_members (h_avail w_avail : list Z) (g : RandomState) :
  h_avail <> [] -> w_avail <> [] ->
  exists start end_ g',
    sample_window h_avail w_avail g = Ok (start, end_, g') /\
    In (fst start) h_avail /\ In (fst end_) h_avail /\ fst start <= fst end_ /\
    In (snd start) w_avail /\ In (snd end_) w_avail /\ snd start <= snd end_.
Proof.
  intros Hh Hw. rewrite (sample_window_run h_avail w_avail g Hh Hw).
  eexists _, _, _. split; [reflexivity|]. cbn [fst snd].
  destruct (np_sort2_In h_avail
              (nth (tape g (pos g) mod length h_avail) h_avail 0,
               nth (tape g (1 + pos g) mod length h_avail) h_avail 0))
    as (Hy0 & Hy1 & Hyle); [apply nth_mod_In, Hh | apply nth_mod_In, Hh |].
  destruct (np_sort2_In w_avail
              (nth (tape g (2 + pos g) mod length w_avail) w_avail 0,
               nth (tape g (3 + pos g) mod length w_avail) w_avail 0))
    as (Hx0 & Hx1 & Hxle); [apply nth_mod_In, Hw | apply nth_mod_In, Hw |].
  repeat split; assumption.
Qed.

(** C6 (amended): in every attempt the two indices of each axis are drawn
    independently, with replacement, from the available set of that axis and
    then sorted; a sample is always produced when both sets are non-empty, its
    endpoints are available positions with [y0 <= y1] and [x0 <= x1], four
    draws are consumed, and the two indices of an axis may coincide. *)
Theorem C6_sample_with_replacement (h_avail w_avail : list Z) (g : RandomState) :
  h_avail <> [] -> w_avail <> [] ->
  let n := length h_avail in
  let m := length w_avail in
  let ys := (nth (tape g (pos g) mod n) h_avail 0, nth (tape g (1 + pos g) mod n) h_avail 0) in
  let xs := (nth (tape g (2 + pos g) mod m) w_avail 0, nth (tape g (3 + pos g) mod m) w_avail 0) in
  exists start end_,
    sample_window h_avail w_avail g = Ok (start, end_, mkRandomState (tape g) (4 + pos g)) /\
    (fst start, fst end_) = np_sort2 ys /\ (snd start, snd end_) = np_sort2 xs /\
    In (fst start) h_avail /\ In (fst end_) h_avail /\ fst start <= fst end_ /\
    In (snd start) w_avail /\ In (snd end_) w_avail /\ snd start <= snd end_ /\
    (forall a b, In a h_avail -> In b w_avail ->
       exists g', sample_window h_avail w_avail g' =
                  Ok ((a, b), (a, b), mkRandomState (tape g') (4 + pos g'))).
Proof.
  intros Hh Hw n m ys xs.
  exists (fst (np_sort2 ys), fst (np_sort2 xs)), (snd (np_sort2 ys), snd (np_sort2 xs)).
  destruct (np_sort2_In h_avail ys) as (Hy0 & Hy1 & Hyle);
    [apply nth_mod_In, Hh | apply nth_mod_In, Hh |].
  destruct (np_sort2_In w_avail xs) as (Hx0 & Hx1 & Hxle);
    [apply nth_mod_In, Hw | apply nth_mod_In, Hw |].
  split; [apply (sample_window_run h_avail w_avail g Hh Hw)|].
  repeat (split; [solve [reflexivity | assumption]|]).
  intros a b Ha Hb.
  destruct (In_nth _ _ 0 Ha) as (i & Hi & Hia).
  destruct (In_nth _ _ 0 Hb) as (j & Hj & Hjb).
  exists (mkRandomState (fun k => if (k <? 2)%nat then i else j) 0).
  rewrite (sample_window_run h_avail w_avail _ Hh Hw).
  cbn [tape pos Nat.add Nat.ltb Nat.leb].
  rewrite !Nat.mod_small by assumption. rewrite Hia, Hjb.
  unfold np_sort2. cbn [fst snd]. now rewrite !Z.min_id, !Z.max_id.
Qed.

Lemma C6_witness :
  exists start end_,
    sample_window [3; 5; 8] [2; 4] identity_tape =
      Ok (start, end_, mkRandomState (fun n => n) 4) /\
    fst start <= fst end_ /\ snd start <= snd end_.
Proof.
  destruct (C6_sample_with_replacement [3; 5; 8] [2; 4] identity_tape
              ltac:(discriminate) ltac:(discriminate))
    as (s & e & Hrun & _ & _ & _ & _ & Hy & _ & _ & Hx & _).
  exists s, e. repeat split; assumption.
Defined.

(** ** Bounding boxes and the occupancy arrays *)

Lemma bbox_spec (poly : polygon) :
  poly <> [] ->
  exists x_min x_max y_min y_max,
    bbox poly = Ok (x_min, x_max, y_min, y_max) /\
    (exists v, In v poly /\ x_min = pixel_x v) /\
    (exists v, In v poly /\ x_max = pixel_x v + 1) /\
    (exists v, In v poly /\ y_min = pixel_y v) /\
    (exists v, In v poly /\ y_max = pixel_y v + 1) /\
    (forall v, In v poly -> x_min <= pixel_x v < x_max /\ y_min <= pixel_y v < y_max).
Proof.
  intros Hne. unfold bbox.
  set (points := map (fun p => (Z.max (np_round (fst p)) 0, Z.max (np_round (snd p)) 0)) poly).
  assert (Hxs : map fst points = map pixel_x poly).
  { unfold points. rewrite map_map. reflexivity. }
  assert (Hys : map snd points = map pixel_y poly).
  { unfold points. rewrite map_map. reflexivity. }
  assert (Hnx : map pixel_x poly <> []) by (destruct poly; [congruence | discriminate]).
  assert (Hny : map pixel_y poly <> []) by (destruct poly; [congruence | discriminate]).
  rewrite Hxs, Hys.
  destruct (amin_spec _ Hnx) as (x0 & -> & Hx0in & Hx0le).
  destruct (amax_spec _ Hnx) as (x1 & -> & Hx1in & Hx1le).
  destruct (amin_spec _ Hny) as (y0 & -> & Hy0in & Hy0le).
  destruct (amax_spec _ Hny) as (y1 & -> & Hy1in & Hy1le).
  cbn [bind]. exists x0, (x1 + 1), y0, (y1 + 1).
  apply in_map_iff in Hx0in, Hx1in, Hy0in, Hy1in.
  destruct Hx0in as (vx0 & <- & ?), Hx1in as (vx1 & <- & ?),
           Hy0in as (vy0 & <- & ?), Hy1in as (vy1 & <- & ?).
  rewrite Forall_forall in Hx0le, Hx1le, Hy0le, Hy1le.
  split; [reflexivity|].
  split; [now exists vx0|]. split; [now exists vx1|].
  split; [now exists vy0|]. split; [now exists vy1|].
  intros v Hv.
  pose proof (Hx0le _ (in_map pixel_x _ _ Hv)). pose proof (Hx1le _ (in_map pixel_x _ _ Hv)).
  pose proof (Hy0le _ (in_map pixel_y _ _ Hv)). pose proof (Hy1le _ (in_map pixel_y _ _ Hv)).
  lia.
Qed.

Lemma bbox_nonneg (poly : polygon) (x_min x_max y_min y_max : Z) :
  bbox poly = Ok (x_min, x_max, y_min, y_max) ->
  0 <= x_min < x_max /\ 0 <= y_min < y_max.
Proof.
  intros Hb. destruct poly as [|v r]; [discriminate|].
  destruct (bbox_spec (v :: r) ltac:(discriminate))
    as (a & b & c & d & Hb' & (v1 & _ & ->) & (v2 & Hv2 & ->) & (v3 & _ & ->) & (v4 & Hv4 & ->) & Hall).
  rewrite Hb in Hb'. injection Hb' as -> -> -> ->.
  pose proof (Hall _ Hv2). pose proof (Hall _ Hv4).
  unfold pixel_x, pixel_y in *. lia.
Qed.

Lemma occupied_x_cons (p : polygon) (rest : list polygon) (i : Z) :
  occupied_x (p :: rest) i = covers_x i p || occupied_x rest i.
Proof. reflexivity. Qed.

Lemma occupied_y_cons (p : polygon) (rest : list polygon) (i : Z) :
  occupied_y (p :: rest) i = covers_y i p || occupied_y rest i.
Proof. reflexivity. Qed.

Lemma covers_x_bbox (p : polygon) (i x_min x_max y_min y_max : Z) :
  bbox p = Ok (x_min, x_max, y_min, y_max) -> covers_x i p = (x_min <=? i) && (i <? x_max).
Proof. intros Hb. unfold covers_x. now rewrite Hb. Qed.

Lemma covers_y_bbox (p : polygon) (i x_min x_max y_min y_max : Z) :
  bbox p = Ok (x_min, x_max, y_min, y_max) -> covers_y i p = (y_min <=? i) && (i <? y_max).
Proof. intros Hb. unfold covers_y. now rewrite Hb. Qed.

Lemma mark_polys_exceeds (size : Z * Z) (nonign : list polygon) (h_array w_array : list Z) :
  nonempty_polys nonign ->
  existsb (exceeds size) nonign = true ->
  mark_polys size nonign h_array w_array = Ok None.
Proof.
  revert h_array w_array.
  induction nonign as [|p rest IH]; intros h_array w_array Hne Hex; simpl in Hex; [discriminate|].
  inversion Hne as [|? ? Hp Hrest]; subst.
  destruct (bbox_spec p Hp) as (x0 & x1 & y0 & y1 & Hb & _).
  simpl. rewrite Hb. cbn [bind].
  unfold exceeds in Hex at 1. rewrite Hb in Hex.
  destruct ((x1 >? snd size) || (y1 >? fst size)) eqn:E.
  - rewrite <- !orb_assoc, E. now rewrite !orb_true_r.
  - simpl in Hex.
    destruct ((x0 <? 0) || (y0 <? 0) || (x1 >? snd size) || (y1 >? fst size));
      [reflexivity | now apply IH].
Qed.

Lemma mark_polys_within (size : Z * Z) (nonign : list polygon) (h_array w_array : list Z) :
  nonempty_polys nonign ->
  existsb (exceeds size) nonign = false ->
  exists h_array' w_array',
    mark_polys size nonign h_array w_array = Ok (Some (h_array', w_array')) /\
    length h_array' = length h_array /\ length w_array' = length w_array /\
    (forall k, (k < length h_array)%nat ->
       nth k h_array' 0 = if occupied_y nonign (Z.of_nat k) then 1 else nth k h_array 0) /\
    (forall k, (k < length w_array)%nat ->
       nth k w_array' 0 = if occupied_x nonign (Z.of_nat k) then 1 else nth k w_array 0).
Proof.
  revert h_array w_array.
  induction nonign as [|p rest IH]; intros h_array w_array Hne Hex.
  - exists h_array, w_array. simpl. repeat split; reflexivity.
  - inversion Hne as [|? ? Hp Hrest]; subst.
    simpl in Hex. apply orb_false_iff in Hex. destruct Hex as [Hexp Hexr].
    destruct (bbox_spec p Hp) as (x0 & x1 & y0 & y1 & Hb & _).
    pose proof (bbox_nonneg _ _ _ _ _ Hb) as [Hx0 Hy0].
    unfold exceeds in Hexp. rewrite Hb in Hexp.
    cbn [mark_polys]. rewrite Hb. cbn [bind].
    replace ((x0 <? 0) || (y0 <? 0) || (x1 >? snd size) || (y1 >? fst size)) with false.
    2:{ rewrite <- !orb_assoc, Hexp.
        replace (x0 <? 0) with false by (symmetry; apply Z.ltb_ge; lia).
        replace (y0 <? 0) with false by (symmetry; apply Z.ltb_ge; lia). reflexivity. }
    destruct (IH (slice_assign h_array y0 y1 1) (slice_assign w_array x0 x1 1) Hrest Hexr)
      as (h' & w' & Hm & Hlh & Hlw & Hh & Hw).
    rewrite slice_assign_length in Hlh, Hlw, Hh, Hw.
    exists h', w'. split; [exact Hm|]. split; [exact Hlh|]. split; [exact Hlw|].
    split; intros k Hk.
    + rewrite (Hh k Hk), (slice_assign_nth _ _ _ _ _ Hk).
      rewrite occupied_y_cons, (covers_y_bbox _ _ _ _ _ _ Hb).
      destruct (occupied_y rest (Z.of_nat k));
        [now rewrite orb_true_r | rewrite orb_false_r; reflexivity].
    + rewrite (Hw k Hk), (slice_assign_nth _ _ _ _ _ Hk).
      rewrite occupied_x_cons, (covers_x_bbox _ _ _ _ _ _ Hb).
      destruct (occupied_x rest (Z.of_nat k));
        [now rewrite orb_true_r | rewrite orb_false_r; reflexivity].
Qed.

(** ** The search loop *)

Lemma poly_max_total (p : polygon) : p <> [] -> exists m, poly_max p = Ok m.
Proof. destruct p; [congruence | eexists; reflexivity]. Qed.

Lemma poly_min_total (p : polygon) : p <> [] -> exists m, poly_min p = Ok m.
Proof. destruct p; [congruence | eexists; reflexivity]. Qed.

Lemma within_crop_total (p : polygon) (start_xy end_xy : Z * Z) :
  p <> [] -> exists b, within_crop p start_xy end_xy = Ok b.
Proof.
  intros Hp. unfold within_crop.
  destruct (poly_max_total p Hp) as [mx ->], (poly_min_total p Hp) as [mn ->]. cbn [bind].
  destruct (Qltb _ _ && Qltb _ _); eexists; reflexivity.
Qed.

Lemma any_within_total (ps : list polygon) (start_xy end_xy : Z * Z) :
  nonempty_polys ps -> exists b, any_within ps start_xy end_xy = Ok b.
Proof.
  induction 1 as [|p rest Hp _ IH]; [now exists false|].
  cbn [any_within]. destruct (within_crop_total p start_xy end_xy Hp) as [b ->]. cbn [bind].
  destruct b; [now exists true | exact IH].
Qed.

Lemma search_spec (tries : nat) (min_size : Z * Z) (h_avail w_avail : list Z)
    (nonign : list polygon) (g : RandomState) :
  h_avail <> [] -> w_avail <> [] -> nonempty_polys nonign ->
  exists found g',
    search tries min_size h_avail w_avail nonign g = Ok (found, g') /\
    match found with
    | Some (start, end_) => sampled_window min_size h_avail w_avail start end_
    | None => True
    end.
Proof.
  intros Hh Hw Hne. revert g.
  induction tries as [|tries IH]; intros g; [now exists None, g|].
  destruct (sample_window_members h_avail w_avail g Hh Hw)
    as (s & e & g1 & Hrun & Hy0 & Hy1 & Hy & Hx0 & Hx1 & Hx).
  cbn [search]. rewrite Hrun. cbn [bind].
  destruct (too_small s e min_size) eqn:Hsmall; [apply IH|].
  destruct (any_within_total nonign (snd s, fst s) (snd e, fst e) Hne) as [b ->]. cbn [bind].
  destruct b; [|apply IH].
  eexists (Some (s, e)), _. split; [reflexivity|].
  unfold sampled_window. repeat split; assumption.
Qed.

(** ** [_find_crop] *)

Section FindCrop.
Variables (self : t) (data : Data) (img : Image) (ps : list polygon) (tags : list bool).
Hypothesis Himg : image data = Some img.
Hypothesis Hps : polys data = Some ps.
Hypothesis Htags : ignore_tags data = Some tags.
Hypothesis Hne : nonempty_polys (not_ignored ps tags).

Lemma find_crop_exceeds (g : RandomState) :
  existsb (exceeds (img_shape img)) (not_ignored ps tags) = true ->
  _find_crop self data g = Ok ((0, 0), img_shape img, true, g).
Proof.
  intros Hex. unfold _find_crop. rewrite Himg, Hps, Htags. cbn [getitem bind].
  rewrite (mark_polys_exceeds _ _ _ _ Hne Hex).
  destruct (not_ignored ps tags); [discriminate | reflexivity].
Qed.

Lemma find_crop_within (g : RandomState) :
  existsb (exceeds (img_shape img)) (not_ignored ps tags) = false ->
  exists start end_ g',
    _find_crop self data g = Ok (start, end_, false, g') /\
    ((start = (0, 0) /\ end_ = img_shape img /\ g' = g) \/
     ((exists i, 0 <= i < fst (img_shape img) /\ occupied_y (not_ignored ps tags) i = false) /\
      (exists j, 0 <= j < snd (img_shape img) /\ occupied_x (not_ignored ps tags) j = false) /\
      ((start = (0, 0) /\ end_ = img_shape img) \/
       free_window (img_shape img) (min_size_of self (img_shape img))
                   (not_ignored ps tags) start end_))).
Proof.
  intros Hex. unfold _find_crop. rewrite Himg, Hps, Htags. cbn [getitem bind].
  set (size := img_shape img) in *. set (nonign := not_ignored ps tags) in *.
  destruct (mark_polys_within size nonign (repeat 0 (Z.to_nat (fst size)))
              (repeat 0 (Z.to_nat (snd size))) Hne Hex)
    as (h' & w' & -> & Hlh & Hlw & Hh & Hw).
  rewrite repeat_length in Hlh, Hlw, Hh, Hw. cbn [bind].
  assert (Hfull : exists start end_ g',
            Ok ((0, 0), size, false, g) = Ok (start, end_, false, g') /\
            ((start = (0, 0) /\ end_ = size /\ g' = g) \/
             ((exists i, 0 <= i < fst size /\ occupied_y nonign i = false) /\
              (exists j, 0 <= j < snd size /\ occupied_x nonign j = false) /\
              ((start = (0, 0) /\ end_ = size) \/
               free_window size (min_size_of self size) nonign start end_)))).
  { exists (0, 0), size, g. split; [reflexivity | now left]. }
  destruct nonign as [|p rest] eqn:E; [exact Hfull|]. rewrite <- E in *.
  assert (HH : Z.of_nat (length h') = fst size) by (rewrite Hlh; unfold size; simpl; lia).
  assert (HW : Z.of_nat (length w') = snd size) by (rewrite Hlw; unfold size; simpl; lia).
  assert (Hfree_h : forall i, In i (where_zero h') ->
            0 <= i < fst size /\ occupied_y nonign i = false).
  { intros i Hi. apply where_zero_spec in Hi. destruct Hi as [Hr Hz]. split; [lia|].
    rewrite (nth_indep _ 1 0) in Hz by lia. rewrite Hh in Hz by lia.
    rewrite Z2Nat.id in Hz by lia. rewrite nth_repeat in Hz.
    destruct (occupied_y nonign i); [discriminate | reflexivity]. }
  assert (Hfree_w : forall j, In j (where_zero w') ->
            0 <= j < snd size /\ occupied_x nonign j = false).
  { intros j Hj. apply where_zero_spec in Hj. destruct Hj as [Hr Hz]. split; [lia|].
    rewrite (nth_indep _ 1 0) in Hz by lia. rewrite Hw in Hz by lia.
    rewrite Z2Nat.id in Hz by lia. rewrite nth_repeat in Hz.
    destruct (occupied_x nonign j); [discriminate | reflexivity]. }
  destruct (np_all h') eqn:Eh; cbn [negb andb]; [exact Hfull|].
  destruct (np_all w') eqn:Ew; cbn [negb andb]; [exact Hfull|].
  pose proof (np_all_false _ Eh) as Hha. pose proof (np_all_false _ Ew) as Hwa.
  assert (Hbands : (exists i, 0 <= i < fst size /\ occupied_y nonign i = false) /\
                   (exists j, 0 <= j < snd size /\ occupied_x nonign j = false)).
  { destruct (where_zero h') as [|i ?] eqn:Ei; [congruence|].
    destruct (where_zero w') as [|j ?] eqn:Ej; [congruence|].
    split; [exists i; apply Hfree_h | exists j; apply Hfree_w]; now left. }
  destruct (search_spec (_max_tries self) (min_size_of self size) _ _ nonign g Hha Hwa Hne)
    as (found & g' & -> & Hfound).
  cbn [bind]. destruct found as [[s e]|].
  - exists s, e, g'. split; [reflexivity|]. right.
    split; [apply Hbands|]. split; [apply Hbands|]. right.
    destruct Hfound as (Hy0 & Hy1 & Hy & Hx0 & Hx1 & Hx & Hsmall).
    destruct (Hfree_h _ Hy0), (Hfree_h _ Hy1), (Hfree_w _ Hx0), (Hfree_w _ Hx1).
    unfold too_small in Hsmall. apply orb_false_iff in Hsmall.
    rewrite !Z.ltb_ge in Hsmall.
    unfold free_window. repeat split; solve [assumption | lia].
  - exists (0, 0), size, g'. split; [reflexivity|]. right.
    split; [apply Hbands|]. split; [apply Hbands|]. now left.
Qed.
End FindCrop.



(** C7: when every position of the height axis, or every position of the
    width axis, is occupied by the box of some non-ignored polygon,
    [_find_crop] returns the full image and leaves the random source as it
    was. *)
Theorem C7_no_free_band_returns_full_image
    (self : t) (data : Data) (img : Image) (ps : list polygon) (tags : list bool)
    (g : RandomState) :
  image data = Some img -> polys data = Some ps -> ignore_tags data = Some tags ->
  nonempty_polys (not_ignored ps tags) ->
  (forall i, 0 <= i < fst (img_shape img) -> occupied_y (not_ignored ps tags) i = true) \/
  (forall j, 0 <= j < snd (img_shape img) -> occupied_x (not_ignored ps tags) j = true) ->
  _find_crop self data g =
    Ok ((0, 0), img_shape img, existsb (exceeds (img_shape img)) (not_ignored ps tags), g).
Proof.
  intros Himg Hps Htags Hne Hfull.
  destruct (existsb (exceeds (img_shape img)) (not_ignored ps tags)) eqn:Hex.
  - now apply (find_crop_exceeds self data img ps tags).
  - destruct (find_crop_within self data img ps tags Himg Hps Htags Hne g Hex)
      as (s & e & g' & Hrun & [(-> & -> & ->) | ((i & Hi & Hfi) & (j & Hj & Hfj) & _)]);
      [exact Hrun|].
    destruct Hfull as [Hy | Hx].
    + rewrite (Hy i Hi) in Hfi. discriminate.
    + rewrite (Hx j Hj) in Hfj. discriminate.
Qed.

Lemma C7_witness :
  _find_crop crop100 scenario_B identity_tape = Ok ((0, 0), (100, 200), false, identity_tape).
Proof.
  apply (C7_no_free_band_returns_full_image crop100 scenario_B (blank 100 200)
           [[(0, 10); (199, 10); (199, 40); (0, 40)]%Q] [false] identity_tape
           eq_refl eq_refl eq_refl).
  - repeat constructor; discriminate.
  - right. intros j Hj. change (snd (img_shape (blank 100 200))) with 200 in Hj.
    unfold not_ignored, occupied_x. cbn [combine filter map snd fst negb existsb].
    rewrite (covers_x_bbox _ j 0 200 10 41) by (vm_compute; reflexivity).
    rewrite orb_false_r, andb_true_iff, Z.leb_le, Z.ltb_lt. lia.
Defined.



(** ** Padding *)

Lemma has_shape_img_shape (img : Image) (h w : Z) :
  has_shape img h w -> 0 < h -> img_shape img = (h, w).
Proof.
  intros [Hh Hw] Hpos. unfold img_shape. destruct img as [|r rest]; simpl in *; [lia|].
  inversion Hw; subst. reflexivity.
Qed.

Lemma np_pad_spec (img : Image) (h w ph pw : Z) :
  has_shape img h w -> 0 < h -> 0 <= ph -> 0 <= pw ->
  exists padded,
    np_pad img ph pw = Ok padded /\
    has_shape padded (h + ph) (w + pw) /\
    (forall i j, 0 <= i < h + ph -> 0 <= j < w + pw ->
       pixel_at padded i j =
       if (i <? h) && (j <? w) then pixel_at img i j else repeat 0 (img_channels img)).
Proof.
  intros Hs Hh Hph Hpw.
  pose proof (has_shape_img_shape _ _ _ Hs Hh) as Hshape.
  destruct Hs as [Hlen Hrows].
  assert (Hw : Z.of_nat (length (hd [] img)) = w) by (unfold img_shape in Hshape; congruence).
  unfold np_pad.
  replace ((ph <? 0) || (pw <? 0)) with false
    by (symmetry; apply orb_false_iff; split; apply Z.ltb_ge; lia).
  set (z := repeat 0 (img_channels img)).
  eexists. split; [reflexivity|]. split.
  - split.
    + rewrite length_app, length_map, repeat_length. lia.
    + apply Forall_app. split.
      * apply Forall_map. eapply Forall_impl; [|exact Hrows].
        intros r Hr. cbn beta in *. rewrite length_app, repeat_length. lia.
      * apply Forall_forall. intros r Hr. apply repeat_spec in Hr. subst r.
        rewrite repeat_length. lia.
  - intros i j Hi Hj. unfold pixel_at.
    destruct (i <? h) eqn:Ei; cbn [andb].
    + apply Z.ltb_lt in Ei.
      rewrite app_nth1 by (rewrite length_map; lia).
      rewrite (nth_indep _ [] ([] ++ repeat z (Z.to_nat pw))) by (rewrite length_map; lia).
      rewrite (map_nth (fun r => r ++ repeat z (Z.to_nat pw))).
      assert (Hrow : Z.of_nat (length (nth (Z.to_nat i) img [])) = w).
      { rewrite Forall_forall in Hrows. apply Hrows, nth_In. lia. }
      destruct (j <? w) eqn:Ej.
      * apply Z.ltb_lt in Ej. now rewrite app_nth1 by lia.
      * apply Z.ltb_ge in Ej. rewrite app_nth2 by lia.
        apply nth_repeat_lt. lia.
    + apply Z.ltb_ge in Ei.
      rewrite app_nth2 by (rewrite length_map; lia). rewrite length_map.
      rewrite nth_repeat_lt by lia. apply nth_repeat_lt. lia.
Qed.

(** ** The instance [nn_cv2] *)

Lemma zrange_length (n : Z) : 0 <= n -> Z.of_nat (length (zrange n)) = n.
Proof. intros Hn. unfold zrange. rewrite length_map, length_seq. lia. Qed.

Lemma nn_cv2_sound : cv2_sound nn_cv2.
Proof.
  intros img w h Hw Hh. cbn [cv2_resize nn_cv2]. unfold nn_resize, img_shape. split.
  - rewrite length_map. apply zrange_length. lia.
  - apply Forall_map, Forall_forall. intros i _. rewrite length_map. apply zrange_length. lia.
Qed.

(** ** ScalePadImage (C8) *)

Lemma Qmin_scale_le (a b : Z) (n : Z) (s : Q) :
  0 < n -> (s <= inject_Z a / inject_Z n)%Q -> (s * inject_Z n <= inject_Z a)%Q.
Proof.
  intros Hn Hs.
  assert (Hq : (0 < inject_Z n)%Q) by (change 0%Q with (inject_Z 0); now rewrite <- Zlt_Qlt).
  assert (Hm : (s * inject_Z n <= inject_Z a / inject_Z n * inject_Z n)%Q).
  { apply Qmult_le_compat_r; [exact Hs | lra]. }
  assert (He : (inject_Z a / inject_Z n * inject_Z n == inject_Z a)%Q).
  { field. lra. }
  lra.
Qed.



(** ** The retention loop of [__call__] *)

Lemma index_skipn {A : Type} (xs : list A) (k : nat) (x : A) (rest : list A) :
  skipn k xs = x :: rest -> index xs k = Ok x /\ skipn (S k) xs = rest.
Proof.
  revert xs. induction k as [|k IH]; intros xs E.
  - simpl in E. subst xs. split; reflexivity.
  - destruct xs as [|y xs]; [discriminate|]. simpl in E. apply IH in E. exact E.
Qed.

Lemma retain_loop_spec (data : Data) (ts : list string) (tags : list bool)
    (start_xy end_xy : Z * Z) (scale : Q) (rest : list polygon) (k : nat) :
  texts data = Some ts -> ignore_tags data = Some tags ->
  nonempty_polys rest ->
  length (skipn k ts) = length rest -> length (skipn k tags) = length rest ->
  retain_loop data start_xy end_xy scale k rest =
    Ok (map (shift_scale start_xy scale) (filter (inside_crop start_xy end_xy) rest),
        keep_aligned start_xy end_xy rest (skipn k ts),
        keep_aligned start_xy end_xy rest (skipn k tags)).
Proof.
  intros Hts Htags Hne. revert k.
  induction Hne as [|p rest Hp Hrest IH]; intros k Hlt Hlg; [reflexivity|].
  destruct (skipn k ts) as [|t ts'] eqn:Et; [discriminate|].
  destruct (skipn k tags) as [|tg tags'] eqn:Eg; [discriminate|].
  destruct (index_skipn _ _ _ _ Et) as [Hit Et'], (index_skipn _ _ _ _ Eg) as [Hig Eg'].
  simpl in Hlt, Hlg.
  specialize (IH (S k)). rewrite Et', Eg' in IH.
  specialize (IH ltac:(lia) ltac:(lia)).
  destruct (within_crop_total p start_xy end_xy Hp) as [b Hb].
  cbn [retain_loop]. rewrite Hb. cbn [bind].
  assert (Hin : inside_crop start_xy end_xy p = b) by (unfold inside_crop; now rewrite Hb).
  unfold keep_aligned in *. cbn [combine filter fst]. rewrite Hin.
  destruct b.
  - rewrite Hts, Htags. cbn [getitem bind]. rewrite Hit, Hig. cbn [bind].
    rewrite IH. reflexivity.
  - exact IH.
Qed.

Lemma keep_aligned_length {A : Type} (start_xy end_xy : Z * Z)
    (ps : list polygon) (xs : list A) :
  length xs = length ps ->
  length (keep_aligned start_xy end_xy ps xs) =
  length (filter (inside_crop start_xy end_xy) ps).
Proof.
  unfold keep_aligned. rewrite length_map. revert xs.
  induction ps as [|p ps IH]; intros xs Hl; [reflexivity|].
  destruct xs as [|x xs]; [discriminate|]. simpl in Hl.
  cbn [combine filter fst]. destruct (inside_crop start_xy end_xy p); simpl;
    rewrite IH by lia; reflexivity.
Qed.

(** ** Boundary repair *)

Section Repair.
Context {K : Shapely}.
Variables (w h : Z) (thresh_area : Q).

Lemma hand_bounds_loop_spec (items : list (polygon * bool)) :
  shapely_sound K -> (0 < thresh_area)%Q ->
  Forall (fun it => single_polygon w h (fst it))
         (filter (fun it => repair_keeps thresh_area w h (fst it)) items) ->
  hand_bounds_loop (crop_rectangle w h) thresh_area items =
    Ok (map (fun it => repaired w h (fst it))
            (filter (fun it => repair_keeps thresh_area w h (fst it)) items),
        map snd (filter (fun it => repair_keeps thresh_area w h (fst it)) items)).
Proof.
  intros [Hdisj _] Hth. induction items as [|[poly tag] rest IH]; intros Hsingle; [reflexivity|].
  cbn [hand_bounds_loop filter fst] in *.
  assert (Hk : repair_keeps thresh_area w h poly =
               Qle_bool thresh_area (area (intersection (crop_rectangle w h) (Polygon poly))))
    by reflexivity.
  destruct (intersects (crop_rectangle w h) (Polygon poly)) eqn:Eint.
  - destruct (Qle_bool thresh_area (area (intersection (crop_rectangle w h) (Polygon poly))))
      eqn:Ear; rewrite Hk in *.
    + inversion Hsingle as [|? ? [ext Hext] Hrest]; subst.
      cbn [fst] in Hext. rewrite Hext. cbn [polygon2numpy bind].
      rewrite (IH Hrest). cbn [bind map fst snd].
      replace (repaired w h poly) with (removelast ext)
        by (unfold repaired; now rewrite Hext).
      reflexivity.
    + apply IH, Hsingle.
  - specialize (Hdisj _ _ Eint).
    assert (Hdrop : repair_keeps thresh_area w h poly = false).
    { rewrite Hk. apply not_true_is_false. intros Hle. apply Qle_bool_iff in Hle. lra. }
    rewrite Hdrop in *. apply IH, Hsingle.
Qed.

Lemma hand_bounds_loop_inv (items : list (polygon * bool))
    (new_polys : list polygon) (new_dontcare : list bool) :
  hand_bounds_loop (crop_rectangle w h) thresh_area items = Ok (new_polys, new_dontcare) ->
  length new_polys = length new_dontcare /\
  Forall (fun p => exists poly exterior,
            intersection (crop_rectangle w h) (Polygon poly) = GPolygon exterior /\
            p = removelast exterior) new_polys.
Proof.
  revert new_polys new_dontcare.
  induction items as [|[poly tag] rest IH]; intros new_polys new_dontcare Hrun.
  - injection Hrun as <- <-. split; [reflexivity | constructor].
  - cbn [hand_bounds_loop] in Hrun.
    destruct (intersects (crop_rectangle w h) (Polygon poly)); [|now apply IH].
    destruct (Qle_bool thresh_area _); [|now apply IH].
    destruct (intersection (crop_rectangle w h) (Polygon poly)) as [ext|] eqn:Eint;
      [|discriminate].
    cbn [polygon2numpy bind] in Hrun.
    destruct (hand_bounds_loop (crop_rectangle w h) thresh_area rest) as [[np nd]|] eqn:Erest;
      [|discriminate].
    cbn [bind] in Hrun. injection Hrun as <- <-.
    destruct (IH np nd eq_refl) as [Hlen Hall]. split; [simpl; now rewrite Hlen|].
    constructor; [|exact Hall]. now exists poly, ext.
Qed.
End Repair.

Lemma in_removelast {A : Type} (l : list A) (x : A) : In x (removelast l) -> In x l.
Proof.
  induction l as [|a l IH]; [tauto|]. simpl.
  destruct l as [|b l]; [tauto|]. intros [-> | Hin]; [now left | right; now apply IH].
Qed.


(** ** The instance [clip_shapely] *)

Lemma between_ratio (a b c : Q) :
  ((a <= c /\ c <= b) \/ (b <= c /\ c <= a))%Q -> ~ (a == b)%Q ->
  (0 <= (c - a) / (b - a) /\ (c - a) / (b - a) <= 1)%Q.
Proof.
  intros Hbetween Hne.
  destruct (Q_dec a b) as [[Hlt | Hgt] | Heq]; [| |contradiction].
  - assert (Hpos : (0 < b - a)%Q) by lra.
    destruct Hbetween as [[? ?] | [? ?]]; [|lra]. split.
    + apply Qle_shift_div_l; [exact Hpos | lra].
    + apply Qle_shift_div_r; [exact Hpos | lra].
  - assert (Hpos : (0 < a - b)%Q) by lra.
    assert (E : ((c - a) / (b - a) == (a - c) / (a - b))%Q) by (field; lra).
    rewrite E. destruct Hbetween as [[? ?] | [? ?]]; [lra|]. split.
    + apply Qle_shift_div_l; [exact Hpos | lra].
    + apply Qle_shift_div_r; [exact Hpos | lra].
Qed.

Lemma convex_between (lo hi x y t : Q) :
  (lo <= x <= hi -> lo <= y <= hi -> 0 <= t <= 1 -> lo <= x + (y - x) * t <= hi)%Q.
Proof.
  intros [? ?] [? ?] [? ?].
  assert (E : (x + (y - x) * t == x * (1 - t) + y * t)%Q) by ring.
  rewrite E.
  assert (0 <= (x - lo) * (1 - t))%Q by (apply Qmult_le_0_compat; lra).
  assert (0 <= (y - lo) * t)%Q by (apply Qmult_le_0_compat; lra).
  assert (0 <= (hi - x) * (1 - t))%Q by (apply Qmult_le_0_compat; lra).
  assert (0 <= (hi - y) * t)%Q by (apply Qmult_le_0_compat; lra).
  split; lra.
Qed.

Lemma last_In {A : Type} (l : list A) (d : A) : l <> [] -> In (last l d) l.
Proof.
  induction l as [|a l IH]; [congruence|]. intros _.
  destruct l as [|b l]; [now left|].
  right. apply IH. discriminate.
Qed.

Section ClipProperties.
Variable inside : point -> bool.
Variable cut : point -> point -> point.

(** A property of the vertices that every cut point inherits is kept. *)
Lemma clip_from_keeps (P : point -> Prop) :
  (forall p q, P p -> P q -> inside p <> inside q -> P (cut p q)) ->
  forall vs prev, P prev -> Forall P vs -> Forall P (clip_from inside cut prev vs).
Proof.
  intros Hcut. induction vs as [|cur rest IH]; intros prev Hprev Hall; [constructor|].
  inversion Hall as [|? ? Hcur Hrest]; subst.
  cbn [clip_from]. apply Forall_app. split; [|now apply IH].
  unfold clip_step.
  destruct (inside cur) eqn:Ec, (inside prev) eqn:Ep; repeat constructor;
    solve [assumption | apply Hcut; [assumption | assumption | congruence]].
Qed.

Lemma clip_halfplane_keeps (P : point -> Prop) :
  (forall p q, P p -> P q -> inside p <> inside q -> P (cut p q)) ->
  forall vs, Forall P vs -> Forall P (clip_halfplane inside cut vs).
Proof.
  intros Hcut vs Hall. destruct vs as [|v rest]; [constructor|].
  unfold clip_halfplane. apply clip_from_keeps; [exact Hcut | | exact Hall].
  rewrite Forall_forall in Hall. apply Hall, last_In. discriminate.
Qed.

(** Whatever the input, the output lies in the half-plane. *)
Lemma clip_from_inside (R : point -> Prop) :
  (forall p, inside p = true -> R p) ->
  (forall p q, inside p <> inside q -> R (cut p q)) ->
  forall vs prev, Forall R (clip_from inside cut prev vs).
Proof.
  intros Hin Hcut. induction vs as [|cur rest IH]; intros prev; [constructor|].
  cbn [clip_from]. apply Forall_app. split; [|apply IH].
  unfold clip_step.
  destruct (inside cur) eqn:Ec, (inside prev) eqn:Ep; repeat constructor;
    solve [now apply Hin | apply Hcut; congruence].
Qed.

Lemma clip_halfplane_inside (R : point -> Prop) :
  (forall p, inside p = true -> R p) ->
  (forall p q, inside p <> inside q -> R (cut p q)) ->
  forall vs, Forall R (clip_halfplane inside cut vs).
Proof.
  intros Hin Hcut [|v rest]; [constructor|]. now apply clip_from_inside.
Qed.
End ClipProperties.

Lemma Qle_bool_differ_l (c a b : Q) :
  Qle_bool c a <> Qle_bool c b ->
  (((a <= c /\ c <= b) \/ (b <= c /\ c <= a)) /\ ~ a == b)%Q.
Proof.
  intros Hd.
  destruct (Qle_bool c a) eqn:Ea, (Qle_bool c b) eqn:Eb; try congruence.
  - apply Qle_bool_iff in Ea.
    assert (~ (c <= b)%Q) by (rewrite <- Qle_bool_iff; congruence). split; [right|]; lra.
  - apply Qle_bool_iff in Eb.
    assert (~ (c <= a)%Q) by (rewrite <- Qle_bool_iff; congruence). split; [left|]; lra.
Qed.

Lemma Qle_bool_differ_r (c a b : Q) :
  Qle_bool a c <> Qle_bool b c ->
  (((a <= c /\ c <= b) \/ (b <= c /\ c <= a)) /\ ~ a == b)%Q.
Proof.
  intros Hd.
  destruct (Qle_bool a c) eqn:Ea, (Qle_bool b c) eqn:Eb; try congruence.
  - apply Qle_bool_iff in Ea.
    assert (~ (b <= c)%Q) by (rewrite <- Qle_bool_iff; congruence). split; [left|]; lra.
  - apply Qle_bool_iff in Eb.
    assert (~ (a <= c)%Q) by (rewrite <- Qle_bool_iff; congruence). split; [right|]; lra.
Qed.

Lemma clip_box_in_box (lo hi : point) (vs : polygon) :
  (fst lo <= fst hi)%Q -> (snd lo <= snd hi)%Q ->
  Forall (in_box lo hi) (clip_box lo hi vs).
Proof.
  intros Hx Hy. unfold clip_box.
  set (v1 := clip_halfplane _ (cut_x (fst lo)) vs).
  set (v2 := clip_halfplane _ (cut_x (fst hi)) v1).
  set (v3 := clip_halfplane _ (cut_y (snd lo)) v2).
  assert (H1 : Forall (fun p => fst lo <= fst p)%Q v1).
  { apply clip_halfplane_inside.
    - intros p Hp. now apply Qle_bool_iff in Hp.
    - intros p q _. simpl. lra. }
  assert (H2 : Forall (fun p => fst lo <= fst p /\ fst p <= fst hi)%Q v2).
  { apply Forall_and.
    - apply clip_halfplane_keeps; [|exact H1]. intros p q _ _ _. simpl. exact Hx.
    - apply clip_halfplane_inside.
      + intros p Hp. now apply Qle_bool_iff in Hp.
      + intros p q _. simpl. lra. }
  assert (H3 : Forall (fun p => (fst lo <= fst p /\ fst p <= fst hi) /\ snd lo <= snd p)%Q v3).
  { apply Forall_and.
    - apply clip_halfplane_keeps; [|exact H2]. intros p q Hp Hq Hd. cbn [cut_y fst].
      destruct (Qle_bool_differ_l _ _ _ Hd) as [Hb Hn].
      apply convex_between; [exact Hp | exact Hq | now apply between_ratio].
    - apply clip_halfplane_inside.
      + intros p Hp. now apply Qle_bool_iff in Hp.
      + intros p q _. simpl. lra. }
  assert (H4 : Forall (fun p => ((fst lo <= fst p /\ fst p <= fst hi) /\ snd lo <= snd p) /\
                                snd p <= snd hi)%Q
                      (clip_halfplane (fun p => Qle_bool (snd p) (snd hi)) (cut_y (snd hi)) v3)).
  { apply Forall_and.
    - apply clip_halfplane_keeps; [|exact H3]. intros p q [Hp Hp'] [Hq Hq'] Hd.
      cbn [cut_y fst snd]. split; [|exact Hy].
      destruct (Qle_bool_differ_r _ _ _ Hd) as [Hb Hn].
      apply convex_between; [exact Hp | exact Hq | now apply between_ratio].
    - apply clip_halfplane_inside.
      + intros p Hp. now apply Qle_bool_iff in Hp.
      + intros p q _. simpl. lra. }
  eapply Forall_impl; [|exact H4]. intros p Hp. cbv beta in Hp. unfold in_box. tauto.
Qed.

Lemma poly_min_bounds (r : polygon) (p : point) :
  let m := fold_left (fun m q => (Qmin (fst m) (fst q), Qmin (snd m) (snd q))) r p in
  Forall (fun q => fst m <= fst q /\ snd m <= snd q)%Q (p :: r) /\
  (forall cx cy, Forall (fun q => cx <= fst q /\ cy <= snd q)%Q (p :: r) ->
                 (cx <= fst m /\ cy <= snd m)%Q).
Proof.
  revert p. induction r as [|a r IH]; intros p; cbn zeta.
  - simpl. split.
    + constructor; [split; apply Qle_refl | constructor].
    + intros cx cy Hall. now inversion Hall.
  - cbn [fold_left]. destruct (IH (Qmin (fst p) (fst a), Qmin (snd p) (snd a))) as [Hlow Hglb].
    cbn zeta in Hlow, Hglb. split.
    + inversion Hlow as [|? ? [Hx Hy] Hrest]; subst. cbn [fst snd] in Hx, Hy.
      pose proof (Q.le_min_l (fst p) (fst a)). pose proof (Q.le_min_r (fst p) (fst a)).
      pose proof (Q.le_min_l (snd p) (snd a)). pose proof (Q.le_min_r (snd p) (snd a)).
      constructor; [split; lra|]. constructor; [split; lra | exact Hrest].
    + intros cx cy Hall. apply Hglb.
      inversion Hall as [|? ? [Hpx Hpy] Hall']; subst.
      inversion Hall' as [|? ? [Hax Hay] Hrest]; subst.
      constructor; [|exact Hrest]. cbn [fst snd]. split; now apply Q.min_glb.
Qed.

Lemma poly_max_bounds (r : polygon) (p : point) :
  let m := fold_left (fun m q => (Qmax (fst m) (fst q), Qmax (snd m) (snd q))) r p in
  Forall (fun q => fst q <= fst m /\ snd q <= snd m)%Q (p :: r) /\
  (forall cx cy, Forall (fun q => fst q <= cx /\ snd q <= cy)%Q (p :: r) ->
                 (fst m <= cx /\ snd m <= cy)%Q).
Proof.
  revert p. induction r as [|a r IH]; intros p; cbn zeta.
  - simpl. split.
    + constructor; [split; apply Qle_refl | constructor].
    + intros cx cy Hall. now inversion Hall.
  - cbn [fold_left]. destruct (IH (Qmax (fst p) (fst a), Qmax (snd p) (snd a))) as [Hup Hlub].
    cbn zeta in Hup, Hlub. split.
    + inversion Hup as [|? ? [Hx Hy] Hrest]; subst. cbn [fst snd] in Hx, Hy.
      pose proof (Q.le_max_l (fst p) (fst a)). pose proof (Q.le_max_r (fst p) (fst a)).
      pose proof (Q.le_max_l (snd p) (snd a)). pose proof (Q.le_max_r (snd p) (snd a)).
      constructor; [split; lra|]. constructor; [split; lra | exact Hrest].
    + intros cx cy Hall. apply Hlub.
      inversion Hall as [|? ? [Hpx Hpy] Hall']; subst.
      inversion Hall' as [|? ? [Hax Hay] Hrest]; subst.
      constructor; [|exact Hrest]. cbn [fst snd]. split; now apply Q.max_lub.
Qed.

Lemma crop_rectangle_ring (w h : Z) :
  0 <= w -> 0 <= h ->
  ring_vertices (crop_rectangle w h) <> [] /\
  Forall (in_rectangle w h) (ring_vertices (crop_rectangle w h)).
Proof.
  intros Hw Hh.
  assert (Hqw : (0 <= inject_Z w)%Q) by (change 0%Q with (inject_Z 0); now rewrite <- Zle_Qle).
  assert (Hqh : (0 <= inject_Z h)%Q) by (change 0%Q with (inject_Z 0); now rewrite <- Zle_Qle).
  unfold crop_rectangle, Polygon.
  destruct (Qeqb_point _ _); cbn [ring_vertices removelast app];
    (split; [discriminate|]); repeat constructor; cbn [fst snd]; lra.
Qed.

Lemma clip_shapely_sound : shapely_sound clip_shapely.
Proof.
  split.
  - intros a b. cbn [intersects intersection area clip_shapely].
    destruct (clip_intersection a b); [discriminate | reflexivity].
  - intros w h g ext Hw Hh. cbn [intersection clip_shapely]. unfold clip_intersection.
    destruct (crop_rectangle_ring w h Hw Hh) as [Hne Hring].
    destruct (ring_vertices (crop_rectangle w h)) as [|p r]; [congruence|].
    cbn [poly_min poly_max].
    destruct (poly_min_bounds r p) as [Hlow Hglb], (poly_max_bounds r p) as [Hup Hlub].
    cbn zeta in *.
    set (lo := fold_left (fun m q => (Qmin (fst m) (fst q), Qmin (snd m) (snd q))) r p) in *.
    set (hi := fold_left (fun m q => (Qmax (fst m) (fst q), Qmax (snd m) (snd q))) r p) in *.
    destruct (Hglb 0%Q 0%Q) as [Hlx Hly].
    { eapply Forall_impl; [|exact Hring]. unfold in_rectangle. intros q Hq. cbv beta. tauto. }
    destruct (Hlub (inject_Z w) (inject_Z h)) as [Hhx Hhy].
    { eapply Forall_impl; [|exact Hring]. unfold in_rectangle. intros q Hq. cbv beta. tauto. }
    destruct (Forall_inv Hlow) as [Hpx Hpy]. destruct (Forall_inv Hup) as [Hpx' Hpy'].
    pose proof (clip_box_in_box lo hi (ring_vertices g) ltac:(lra) ltac:(lra)) as Hbox.
    destruct (clip_box lo hi (ring_vertices g)) as [|v rest]; [discriminate|].
    intros Hext. injection Hext as <-.
    assert (Hall : Forall (in_rectangle w h) (v :: rest)).
    { eapply Forall_impl; [|exact Hbox]. unfold in_box, in_rectangle. intros q Hq. lra. }
    change (v :: rest ++ [v]) with ((v :: rest) ++ [v]).
    apply Forall_app. split; [exact Hall|]. constructor; [|constructor].
    exact (Forall_inv Hall).
Qed.


(** ** [__call__] of RandomCropWithBBox *)

Lemma np_pad_ok (img padded : Image) (ph pw : Z) :
  np_pad img ph pw = Ok padded -> 0 <= ph /\ 0 <= pw.
Proof.
  unfold np_pad. destruct ((ph <? 0) || (pw <? 0)) eqn:E; [discriminate|].
  intros _. apply orb_false_iff in E. rewrite !Z.ltb_ge in E. exact E.
Qed.

Section Call.
Context {C : Cv2} {K : Shapely}.

Lemma call_unfold (self : t) (data : Data) (g g1 : RandomState)
    (start end_ : Z * Z) (flag : bool) (img : Image)
    (ps : list polygon) :
  _find_crop self data g = Ok (start, end_, flag, g1) ->
  image data = Some img -> polys data = Some ps ->
  __call__ self data g =
    ('(new_polys, new_texts, new_ignores) <-
       retain_loop (set_image data (resized_crop self img start end_))
                   (snd start, fst start) (snd end_, fst end_)
                   (crop_scale self start end_) 0 ps ;;
     data' <- (if flag
               then hand_bounds (retained_record data (resized_crop self img start end_)
                                                 new_polys new_texts new_ignores)
               else Ok (retained_record data (resized_crop self img start end_)
                                        new_polys new_texts new_ignores)) ;;
     img' <- getitem "image" (image data') ;;
     img'' <- np_pad img' (fst (_crop_size self) - fst (img_shape img'))
                          (snd (_crop_size self) - snd (img_shape img')) ;;
     Ok (set_image data' img'', g1)).
Proof.
  intros Hfind Himg Hps. unfold __call__. rewrite Hfind. cbn [bind].
  rewrite Himg. cbn [getitem bind]. cbn [set_image polys]. rewrite Hps. cbn [getitem bind].
  reflexivity.
Qed.

Lemma hand_bounds_unfold (data : Data) (img : Image)
    (ps : list polygon) (tags : list bool) :
  image data = Some img -> polys data = Some ps -> ignore_tags data = Some tags ->
  hand_bounds data =
    ('(new_polys, new_dontcare) <-
       hand_bounds_loop (crop_rectangle (snd (img_shape img)) (fst (img_shape img))) 8
                        (combine ps tags) ;;
     Ok (mkData (Some img) (Some new_polys) (texts data) (Some new_dontcare) (shape data))).
Proof.
  intros Himg Hps Htags. unfold hand_bounds, hand_bounds_with.
  rewrite Himg, Hps, Htags. cbn [getitem bind]. unfold img_shape at 1.
  unfold set_ignore_tags, set_polys. cbn [image polys texts ignore_tags shape fst snd img_shape].
  rewrite Himg. reflexivity.
Qed.
End Call.

Lemma slice_full {A : Type} (n : Z) (l : list A) :
  Z.of_nat (length l) = n -> slice 0 n l = l.
Proof.
  intros Hn. unfold slice. cbn [Z.to_nat skipn]. apply firstn_all2. lia.
Qed.

Lemma slice2d_full (img : Image) (h w : Z) :
  has_shape img h w -> slice2d img 0 h 0 w = img.
Proof.
  intros [Hh Hw]. unfold slice2d. rewrite (slice_full h img Hh).
  rewrite <- (map_id img) at 2. apply map_ext_in. intros r Hr.
  rewrite Forall_forall in Hw. apply slice_full, Hw, Hr.
Qed.




Lemma blank_has_shape (h w : nat) : has_shape (blank h w) (Z.of_nat h) (Z.of_nat w).
Proof.
  unfold blank. split; [now rewrite repeat_length|].
  apply Forall_forall. intros r Hr. apply repeat_spec in Hr. subst r. now rewrite repeat_length.
Qed.



(** ** Containment of the retained polygons (C2) *)

(** An ignored polygon that leaves the image is returned unclipped: its
    vertex at [x = 150] is outside the 100 x 100 crop. *)
Lemma C2_counterexample :
  exists d' g' poly v,
    __call__ (C := nn_cv2) (K := clip_shapely) crop100 ignored_overhang_record identity_tape =
      Ok (d', g') /\
    polys d' = Some [poly] /\ In v poly /\ ~ in_rectangle 100 100 v.
Proof.
  eexists. eexists. eexists. exists (150 * (100 # 100), 50 * (100 # 100))%Q.
  split; [vm_compute; reflexivity|]. split; [reflexivity|].
  split; [right; left; vm_compute; reflexivity|].
  unfold in_rectangle. cbn [fst snd]. intros (_ & Hx & _).
  unfold Qle in Hx. vm_compute in Hx. now apply Hx.
Qed.

Lemma retain_loop_lengths (data : Data) (start_xy end_xy : Z * Z) (scale : Q)
    (rest new_polys : list polygon) (k : nat)
    (new_texts : list string) (new_ignores : list bool) :
  retain_loop data start_xy end_xy scale k rest = Ok (new_polys, new_texts, new_ignores) ->
  length new_texts = length new_polys /\ length new_ignores = length new_polys.
Proof.
  revert k new_polys new_texts new_ignores.
  induction rest as [|p rest IH]; intros k np nt ni Hrun.
  - injection Hrun as <- <- <-. split; reflexivity.
  - cbn [retain_loop] in Hrun.
    destruct (within_crop p start_xy end_xy) as [[|]|]; cbn [bind] in Hrun;
      [|now apply (IH (S k)) | discriminate].
    destruct (getitem "texts" (texts data)) as [ts|]; [|discriminate]. cbn [bind] in Hrun.
    destruct (index ts k) as [text|]; [|discriminate]. cbn [bind] in Hrun.
    destruct (getitem "ignore_tags" (ignore_tags data)) as [tags|]; [|discriminate].
    cbn [bind] in Hrun.
    destruct (index tags k) as [tag|]; [|discriminate]. cbn [bind] in Hrun.
    destruct (retain_loop data start_xy end_xy scale (S k) rest) as [[[np' nt'] ni']|] eqn:E;
      [|discriminate].
    cbn [bind] in Hrun. injection Hrun as <- <- <-.
    destruct (IH (S k) np' nt' ni' E) as [Ht Hi]. simpl. now rewrite Ht, Hi.
Qed.

(** C2 (amended): when [_find_crop] has signalled out-of-bounds, so that
    boundary repair runs, every vertex of every polygon of the returned record
    lies within [[0, crop_size_w] x [0, crop_size_h]].  (Without the signal the
    retained polygons are translated and scaled but not clipped.) *)
Theorem C2_repaired_polygons_within_crop {C : Cv2} {K : Shapely}
    (self : t) (data d' : Data) (g g1 g' : RandomState) (start end_ : Z * Z) :
  shapely_sound K ->
  _find_crop self data g = Ok (start, end_, true, g1) ->
  __call__ self data g = Ok (d', g') ->
  exists new_polys,
    polys d' = Some new_polys /\
    Forall (Forall (in_rectangle (snd (_crop_size self)) (fst (_crop_size self)))) new_polys.
Proof.
  intros [_ Hrect] Hfind Hrun.
  destruct (image data) as [img|] eqn:Himg;
    [|unfold __call__ in Hrun; rewrite Hfind, Himg in Hrun; discriminate].
  destruct (polys data) as [ps|] eqn:Hps;
    [|unfold __call__ in Hrun; rewrite Hfind, Himg in Hrun; cbn in Hrun;
      rewrite Hps in Hrun; discriminate].
  rewrite (call_unfold self data g g1 start end_ true img ps Hfind Himg Hps) in Hrun.
  set (resized := resized_crop self img start end_) in *.
  destruct (retain_loop _ _ _ _ 0 ps) as [[[np nt] ni]|]; [|discriminate]. cbn [bind] in Hrun.
  rewrite (hand_bounds_unfold (retained_record data resized np nt ni) resized np ni
             eq_refl eq_refl eq_refl) in Hrun.
  destruct (hand_bounds_loop _ 8 (combine np ni)) as [[np' nd']|] eqn:Eloop; [|discriminate].
  cbn [bind image getitem] in Hrun.
  destruct (np_pad resized _ _) as [padded|] eqn:Epad; [|discriminate].
  cbn [bind] in Hrun. injection Hrun as <- <-.
  apply np_pad_ok in Epad. destruct Epad as [Hph Hpw].
  exists np'. split; [reflexivity|].
  assert (Hsz : 0 <= snd (img_shape resized) /\ 0 <= fst (img_shape resized))
    by (unfold img_shape; cbn [fst snd]; lia).
  assert (Hqw : (inject_Z (snd (img_shape resized)) <= inject_Z (snd (_crop_size self)))%Q)
    by (rewrite <- Zle_Qle; lia).
  assert (Hqh : (inject_Z (fst (img_shape resized)) <= inject_Z (fst (_crop_size self)))%Q)
    by (rewrite <- Zle_Qle; lia).
  destruct (hand_bounds_loop_inv _ _ _ _ _ _ Eloop) as [_ Hall].
  eapply Forall_impl; [|exact Hall]. intros p (poly & ext & Hint & ->).
  apply Hrect in Hint; [|lia|lia].
  apply Forall_forall. intros v Hv. apply in_removelast in Hv.
  rewrite Forall_forall in Hint. specialize (Hint v Hv).
  unfold in_rectangle in *. lra.
Qed.

Lemma C2_witness :
  exists d' g' new_polys,
    __call__ (C := nn_cv2) (K := clip_shapely) crop100 overhang_record identity_tape =
      Ok (d', g') /\
    polys d' = Some new_polys /\ Forall (Forall (in_rectangle 100 100)) new_polys.
Proof.
  assert (Hrun : exists d' g',
            __call__ (C := nn_cv2) (K := clip_shapely) crop100 overhang_record identity_tape =
              Ok (d', g')).
  { eexists. eexists. vm_compute. reflexivity. }
  destruct Hrun as (d' & g' & Hrun).
  destruct (C2_repaired_polygons_within_crop (C := nn_cv2) (K := clip_shapely)
              crop100 overhang_record d' identity_tape identity_tape g' (0, 0) (100, 100)
              clip_shapely_sound eq_refl Hrun) as (np & Hp & Hall).
  exists d', g', np. repeat split; assumption.
Defined.

(** ** Alignment of the per-instance arrays (C1) *)

(** Without repair, the three arrays leave the stage with one length. *)
Lemma call_aligned_without_repair {C : Cv2} {K : Shapely}
    (self : t) (data d' : Data) (g g1 g' : RandomState) (start end_ : Z * Z) :
  _find_crop self data g = Ok (start, end_, false, g1) ->
  __call__ self data g = Ok (d', g') ->
  aligned d'.
Proof.
  intros Hfind Hrun.
  destruct (image data) as [img|] eqn:Himg;
    [|unfold __call__ in Hrun; rewrite Hfind, Himg in Hrun; discriminate].
  destruct (polys data) as [ps|] eqn:Hps;
    [|unfold __call__ in Hrun; rewrite Hfind, Himg in Hrun; cbn in Hrun;
      rewrite Hps in Hrun; discriminate].
  rewrite (call_unfold self data g g1 start end_ false img ps Hfind Himg Hps) in Hrun.
  destruct (retain_loop _ _ _ _ 0 ps) as [[[np nt] ni]|] eqn:Eloop; [|discriminate].
  cbn [bind retained_record image getitem] in Hrun.
  destruct (np_pad _ _ _) as [padded|]; [|discriminate].
  cbn [bind] in Hrun. injection Hrun as <- <-.
  apply retain_loop_lengths in Eloop. destruct Eloop as [Ht Hi].
  exists np, nt, ni. cbn. repeat split; congruence.
Qed.

(** Repair rewrites [polys] and [ignore_tags] and nothing else. *)
Lemma hand_bounds_keeps_texts {K : Shapely} (data d' : Data) :
  hand_bounds data = Ok d' -> texts d' = texts data /\ image d' = image data.
Proof.
  unfold hand_bounds, hand_bounds_with.
  destruct (image data) as [img|] eqn:Himg; [|discriminate]. cbn [getitem bind].
  destruct (img_shape img) as [h w].
  destruct (polys data) as [ps|]; [|discriminate]. cbn [getitem bind].
  destruct (ignore_tags data) as [tags|]; [|discriminate]. cbn [getitem bind].
  destruct (hand_bounds_loop _ _ _) as [[np nd]|]; [|discriminate]. cbn [bind].
  intros Hd. injection Hd as <-. split; [reflexivity | exact Himg].
Qed.

Lemma not_ignored_In (ps : list polygon) (tags : list bool) (p : polygon) :
  In p (not_ignored ps tags) -> In p ps.
Proof.
  unfold not_ignored. rewrite in_map_iff. intros ([q tag] & <- & Hin).
  apply filter_In in Hin. destruct Hin as [Hin _]. now apply in_combine_l in Hin.
Qed.

Lemma not_ignored_nonempty (ps : list polygon) (tags : list bool) :
  nonempty_polys ps -> nonempty_polys (not_ignored ps tags).
Proof.
  unfold nonempty_polys. rewrite !Forall_forall. intros Hne p Hp.
  apply Hne. eapply not_ignored_In, Hp.
Qed.

(** The repair path of [__call__] on a well-formed record: the stage
    returns, whatever the random source, the record whose polygons and ignore
    tags went through retention and repair and whose texts went through
    retention only. *)
Lemma call_repair_run {C : Cv2} {K : Shapely}
    (self : t) (data : Data) (img : Image) (H W : Z)
    (ps : list polygon) (ts : list string) (tags : list bool) :
  cv2_sound C -> shapely_sound K ->
  image data = Some img -> has_shape img H W -> 0 < H -> 0 < W ->
  polys data = Some ps -> texts data = Some ts -> ignore_tags data = Some tags ->
  length ts = length ps -> length tags = length ps -> nonempty_polys ps ->
  existsb (exceeds (H, W)) (not_ignored ps tags) = true ->
  let crop_h := fst (_crop_size self) in
  let crop_w := snd (_crop_size self) in
  let scale := Qmin (inject_Z crop_h / inject_Z H) (inject_Z crop_w / inject_Z W) in
  let new_h := np_round (inject_Z H * scale) in
  let new_w := np_round (inject_Z W * scale) in
  let retained := map (shift_scale (0, 0) scale) (filter (inside_crop (0, 0) (W, H)) ps) in
  let kept := filter (fun it => repair_keeps 8 new_w new_h (fst it))
                     (combine retained (keep_aligned (0, 0) (W, H) ps tags)) in
  0 < new_h -> 0 < new_w ->
  Forall (fun it => single_polygon new_w new_h (fst it)) kept ->
  exists padded,
    has_shape padded crop_h crop_w /\
    forall g,
      __call__ self data g =
        Ok (mkData (Some padded)
                   (Some (map (fun it => repaired new_w new_h (fst it)) kept))
                   (Some (keep_aligned (0, 0) (W, H) ps ts))
                   (Some (map snd kept))
                   (shape data), g).
Proof.
  intros Hcv Hsound Himg Hshape HH HW Hps Hts Htags Hlt Hlg Hne Hex
         crop_h crop_w scale new_h new_w retained kept Hnh Hnw Hsingle.
  assert (Hsize : img_shape img = (H, W)) by now apply has_shape_img_shape.
  set (resized := cv2_resize img new_w new_h).
  assert (Hres : has_shape resized new_h new_w) by (apply Hcv; assumption).
  assert (Hle_h : new_h <= crop_h).
  { apply np_round_le. rewrite Qmult_comm.
    apply (Qmin_scale_le crop_h crop_w); [exact HH | apply Q.le_min_l]. }
  assert (Hle_w : new_w <= crop_w).
  { apply np_round_le. rewrite Qmult_comm.
    apply (Qmin_scale_le crop_w crop_h); [exact HW | apply Q.le_min_r]. }
  destruct (np_pad_spec resized new_h new_w (crop_h - new_h) (crop_w - new_w) Hres Hnh
              ltac:(lia) ltac:(lia)) as (padded & Hpad & Hpshape & _).
  replace (new_h + (crop_h - new_h)) with crop_h in * by lia.
  replace (new_w + (crop_w - new_w)) with crop_w in * by lia.
  exists padded. split; [exact Hpshape|]. intros g.
  assert (Hfind : _find_crop self data g = Ok ((0, 0), img_shape img, true, g)).
  { apply (find_crop_exceeds self data img ps tags Himg Hps Htags).
    - now apply not_ignored_nonempty.
    - now rewrite Hsize. }
  rewrite (call_unfold self data g g (0, 0) (img_shape img) true img ps Hfind Himg Hps).
  assert (Hscale : crop_scale self (0, 0) (img_shape img) = scale).
  { unfold crop_scale. rewrite Hsize. cbn [fst snd]. now rewrite !Z.sub_0_r. }
  assert (Hresized : resized_crop self img (0, 0) (img_shape img) = resized).
  { unfold resized_crop. rewrite Hscale, Hsize. cbn [fst snd].
    rewrite (slice2d_full img H W Hshape). unfold cv2_resize_scale. now rewrite Hsize. }
  rewrite Hscale, Hresized, Hsize. cbn [fst snd].
  rewrite (retain_loop_spec (set_image data resized) ts tags (0, 0) (W, H) scale ps 0
             Hts Htags Hne Hlt Hlg).
  cbn [bind skipn]. fold retained.
  rewrite (hand_bounds_unfold (retained_record data resized retained _ _) resized retained _
             eq_refl eq_refl eq_refl).
  rewrite (has_shape_img_shape _ _ _ Hres Hnh). cbn [fst snd].
  rewrite (hand_bounds_loop_spec new_w new_h 8 _ Hsound ltac:(lra) Hsingle).
  cbn [bind image getitem retained_record texts shape].
  rewrite (has_shape_img_shape _ _ _ Hres Hnh). cbn [fst snd].
  fold crop_h crop_w. rewrite Hpad. reflexivity.
Qed.

(** Whenever repair drops a retained instance, the returned record has fewer
    polygons than texts. *)
Lemma call_repair_misaligned {C : Cv2} {K : Shapely}
    (self : t) (data : Data) (img : Image) (H W : Z)
    (ps : list polygon) (ts : list string) (tags : list bool) :
  cv2_sound C -> shapely_sound K ->
  image data = Some img -> has_shape img H W -> 0 < H -> 0 < W ->
  polys data = Some ps -> texts data = Some ts -> ignore_tags data = Some tags ->
  length ts = length ps -> length tags = length ps -> nonempty_polys ps ->
  existsb (exceeds (H, W)) (not_ignored ps tags) = true ->
  let crop_h := fst (_crop_size self) in
  let crop_w := snd (_crop_size self) in
  let scale := Qmin (inject_Z crop_h / inject_Z H) (inject_Z crop_w / inject_Z W) in
  let new_h := np_round (inject_Z H * scale) in
  let new_w := np_round (inject_Z W * scale) in
  let retained := map (shift_scale (0, 0) scale) (filter (inside_crop (0, 0) (W, H)) ps) in
  let kept := filter (fun it => repair_keeps 8 new_w new_h (fst it))
                     (combine retained (keep_aligned (0, 0) (W, H) ps tags)) in
  0 < new_h -> 0 < new_w ->
  Forall (fun it => single_polygon new_w new_h (fst it)) kept ->
  (length kept < length retained)%nat ->
  forall g, exists d' g',
    __call__ self data g = Ok (d', g') /\
    option_map (@length _) (polys d') = Some (length kept) /\
    option_map (@length _) (texts d') = Some (length retained) /\
    ~ aligned d'.
Proof.
  intros Hcv Hsound Himg Hshape HH HW Hps Hts Htags Hlt Hlg Hne Hex
         crop_h crop_w scale new_h new_w retained kept Hnh Hnw Hsingle Hdrop g.
  destruct (call_repair_run self data img H W ps ts tags Hcv Hsound Himg Hshape HH HW
              Hps Hts Htags Hlt Hlg Hne Hex Hnh Hnw Hsingle) as (padded & _ & Hrun).
  eexists _, _. split; [apply Hrun|]. cbn [polys texts option_map].
  assert (Hlen_t : length (keep_aligned (0, 0) (W, H) ps ts) = length retained).
  { unfold retained. rewrite length_map. now apply keep_aligned_length. }
  rewrite length_map, Hlen_t.
  split; [reflexivity|]. split; [reflexivity|].
  intros (ps' & ts' & tags' & Hp & Ht & _ & Hl & _).
  cbn [polys texts] in Hp, Ht. injection Hp as <-. injection Ht as <-.
  rewrite length_map, Hlen_t in Hl. change (length kept = length retained) in Hl. lia.
Qed.

(** C1: on [overhang_record], whose three arrays are aligned, the stage takes
    the repair path and returns one polygon and one ignore tag but two texts:
    [hand_bounds] filters [polys] and [ignore_tags] and leaves [texts] as the
    retention loop produced it, so index 0 pairs the clipped wide polygon
    with the text of the dropped small one. *)
Theorem C1_repair_leaves_texts_unfiltered :
  aligned overhang_record /\
  exists d' g' poly,
    __call__ (C := nn_cv2) (K := clip_shapely) crop100 overhang_record identity_tape =
      Ok (d', g') /\
    polys d' = Some [poly] /\
    texts d' = Some ["B"%string; "A"%string] /\
    ignore_tags d' = Some [false] /\
    ~ aligned d'.
Proof.
  split.
  - exists [small_polygon; wide_polygon], ["B"%string; "A"%string], [false; false].
    repeat split; reflexivity.
  - eexists. eexists. eexists. split; [vm_compute; reflexivity|].
    split; [reflexivity|]. split; [reflexivity|]. split; [reflexivity|].
    intros (ps & ts & tags & Hp & Ht & _ & Hlen & _).
    cbn [polys texts] in Hp, Ht. injection Hp as <-. injection Ht as <-. discriminate Hlen.
Qed.

(** ** Scenario A, end to end *)

(** With the draws of [stride_tape] the sixth candidate window is accepted:
    rows 5 to 43, columns 5 to 198.  The output is 64 x 64 and keeps the one
    instance. *)
Example scenario_A_run :
  (exists g', _find_crop crop64 scenario_A stride_tape = Ok ((5, 5), (43, 198), false, g') /\
              pos g' = 24%nat) /\
  exists d' g',
    __call__ (C := nn_cv2) (K := clip_shapely) crop64 scenario_A stride_tape = Ok (d', g') /\
    option_map img_shape (image d') = Some (64, 64) /\
    option_map (@length _) (polys d') = Some 1%nat /\
    texts d' = Some ["text"%string] /\ ignore_tags d' = Some [false].
Proof.
  split.
  - eexists. split; [vm_compute; reflexivity | reflexivity].
  - eexists. eexists. split; [vm_compute; reflexivity|].
    repeat split; reflexivity.
Qed.

(** * Further properties of the stages *)

(** ** Rounding *)


Lemma np_round_eq_Z (q : Q) (n : Z) : (q == inject_Z n)%Q -> np_round q = n.
Proof.
  intros E. apply Z.le_antisymm; [apply np_round_le | apply np_round_ge]; lra.
Qed.

(** ** The random source of the crop search *)

Lemma np_random_choice2_advance (a : list Z) (g g' : RandomState) (p : Z * Z) :
  np_random_choice2 a g = Ok (p, g') -> tape g' = tape g /\ pos g' = (2 + pos g)%nat.
Proof.
  destruct a as [|x a]; [discriminate|]. cbn. intros E. injection E as _ <-. now split.
Qed.

Lemma sample_window_advance (h_avail w_avail : list Z) (g g' : RandomState) (s e : Z * Z) :
  sample_window h_avail w_avail g = Ok (s, e, g') ->
  tape g' = tape g /\ pos g' = (4 + pos g)%nat.
Proof.
  unfold sample_window.
  destruct (np_random_choice2 h_avail g) as [[ys g1]|] eqn:E1; [|discriminate]. cbn [bind].
  destruct (np_random_choice2 w_avail g1) as [[xs g2]|] eqn:E2; [|discriminate]. cbn [bind].
  intros E. injection E as _ _ <-.
  apply np_random_choice2_advance in E1, E2. destruct E1 as [T1 P1], E2 as [T2 P2].
  split; [congruence | lia].
Qed.

Lemma any_within_true (ps : list polygon) (start_xy end_xy : Z * Z) :
  any_within ps start_xy end_xy = Ok true ->
  exists p, In p ps /\ within_crop p start_xy end_xy = Ok true.
Proof.
  induction ps as [|p ps IH]; [discriminate|]. cbn [any_within].
  destruct (within_crop p start_xy end_xy) as [[|]|] eqn:E; cbn [bind]; [| |discriminate].
  - intros _. exists p. split; [now left | exact E].
  - intros H. destruct (IH H) as (q & Hq & Hw). exists q. split; [now right | exact Hw].
Qed.

(** What a run of the search loop leaves behind: the tape is untouched, four
    draws are consumed per attempt, and an accepted window was sampled from
    the available positions, passed the size test and has a polygon within. *)
Lemma search_trace (tries : nat) (min_size : Z * Z) (h_avail w_avail : list Z)
    (nonign : list polygon) (g g' : RandomState) (found : option ((Z * Z) * (Z * Z))) :
  search tries min_size h_avail w_avail nonign g = Ok (found, g') ->
  tape g' = tape g /\
  exists k, (k <= tries)%nat /\ pos g' = (4 * k + pos g)%nat /\
    match found with
    | Some (s, e) =>
        too_small s e min_size = false /\
        exists p, In p nonign /\ within_crop p (snd s, fst s) (snd e, fst e) = Ok true
    | None => k = tries
    end.
Proof.
  revert g. induction tries as [|tries IH]; intros g Hrun.
  - cbn in Hrun. injection Hrun as <- <-. split; [reflexivity|]. exists 0%nat. now repeat split.
  - cbn [search] in Hrun.
    destruct (sample_window h_avail w_avail g) as [[[s e] g1]|] eqn:Es; [|discriminate].
    cbn [bind] in Hrun. apply sample_window_advance in Es. destruct Es as [T1 P1].
    assert (Hnext : search tries min_size h_avail w_avail nonign g1 = Ok (found, g') ->
              tape g' = tape g /\
              exists k, (k <= S tries)%nat /\ pos g' = (4 * k + pos g)%nat /\
                match found with
                | Some (s, e) =>
                    too_small s e min_size = false /\
                    exists p, In p nonign /\
                              within_crop p (snd s, fst s) (snd e, fst e) = Ok true
                | None => k = S tries
                end).
    { intros H. destruct (IH g1 H) as (T & k & Hk & Hp & Hf). split; [congruence|].
      exists (S k). split; [lia|]. split; [lia|].
      destruct found as [[s' e']|]; [exact Hf | lia]. }
    destruct (too_small s e min_size) eqn:Esmall; [now apply Hnext|].
    destruct (any_within nonign (snd s, fst s) (snd e, fst e)) as [[|]|] eqn:Eany;
      cbn [bind] in Hrun; [| now apply Hnext | discriminate].
    injection Hrun as <- <-. split; [exact T1|]. exists 1%nat.
    split; [lia|]. split; [lia|]. split; [exact Esmall | now apply any_within_true].
Qed.

(** ** Inversion of [_find_crop] *)

Lemma bbox_Ok_nonempty (p : polygon) (bb : Z * Z * Z * Z) : bbox p = Ok bb -> p <> [].
Proof. intros H ->. discriminate H. Qed.

Lemma mark_polys_inv (size : Z * Z) (nonign : list polygon) (h_array w_array : list Z)
    (marked : option (list Z * list Z)) :
  mark_polys size nonign h_array w_array = Ok marked ->
  match marked with
  | Some _ => nonempty_polys nonign /\ existsb (exceeds size) nonign = false
  | None => existsb (exceeds size) nonign = true
  end.
Proof.
  revert h_array w_array. induction nonign as [|p rest IH]; intros h_array w_array Hrun.
  - injection Hrun as <-. split; [constructor | reflexivity].
  - cbn [mark_polys] in Hrun.
    destruct (bbox p) as [[[[x0 x1] y0] y1]|] eqn:Hb; [|discriminate]. cbn [bind] in Hrun.
    pose proof (bbox_nonneg _ _ _ _ _ Hb) as [Hx Hy].
    assert (Hex : exceeds size p = (x1 >? snd size) || (y1 >? fst size))
      by (unfold exceeds; now rewrite Hb).
    cbn [existsb]. rewrite Hex.
    replace (x0 <? 0) with false in Hrun by (symmetry; apply Z.ltb_ge; lia).
    replace (y0 <? 0) with false in Hrun by (symmetry; apply Z.ltb_ge; lia).
    cbn [orb] in Hrun.
    destruct ((x1 >? snd size) || (y1 >? fst size)).
    + injection Hrun as <-. reflexivity.
    + specialize (IH _ _ Hrun). destruct marked as [m|]; [|exact IH].
      destruct IH as [Hne Hno]. split; [|exact Hno].
      constructor; [eapply bbox_Ok_nonempty, Hb | exact Hne].
Qed.

(** Every successful run of [_find_crop]: the three fields were present, the
    tape is untouched, [4 * k] draws were consumed for some [k <= max_tries],
    and the window is the full image or was accepted by the search, in which
    case its endpoints are free positions, its span passed the size test and
    a non-ignored polygon is within it. *)
Lemma find_crop_trace (self : t) (data : Data) (g g' : RandomState)
    (s e : Z * Z) (flag : bool) :
  _find_crop self data g = Ok (s, e, flag, g') ->
  exists img ps tags,
    image data = Some img /\ polys data = Some ps /\ ignore_tags data = Some tags /\
    tape g' = tape g /\
    exists k, (k <= _max_tries self)%nat /\ pos g' = (4 * k + pos g)%nat /\
      ((s = (0, 0) /\ e = img_shape img /\ (flag = true -> k = 0%nat)) \/
       (flag = false /\
        free_window (img_shape img) (min_size_of self (img_shape img))
                    (not_ignored ps tags) s e /\
        exists p, In p (not_ignored ps tags) /\
                  within_crop p (snd s, fst s) (snd e, fst e) = Ok true)).
Proof.
  intros Hrun. pose proof Hrun as Hcopy. unfold _find_crop in Hrun.
  destruct (image data) as [img|] eqn:Himg; [|discriminate].
  destruct (polys data) as [ps|] eqn:Hps; [|discriminate].
  destruct (ignore_tags data) as [tags|] eqn:Htags; [|discriminate].
  cbn [getitem bind] in Hrun.
  exists img, ps, tags. repeat (split; [reflexivity|]).
  assert (Hfull : forall fl, Ok ((0, 0), img_shape img, fl, g) = Ok (s, e, flag, g') ->
            tape g' = tape g /\
            exists k, (k <= _max_tries self)%nat /\ pos g' = (4 * k + pos g)%nat /\
              ((s = (0, 0) /\ e = img_shape img /\ (flag = true -> k = 0%nat)) \/
               (flag = false /\
                free_window (img_shape img) (min_size_of self (img_shape img))
                            (not_ignored ps tags) s e /\
                exists p, In p (not_ignored ps tags) /\
                          within_crop p (snd s, fst s) (snd e, fst e) = Ok true))).
  { intros fl E. injection E as <- <- <- <-. split; [reflexivity|].
    exists 0%nat. split; [lia|]. split; [lia|]. left. now repeat split. }
  destruct (not_ignored ps tags) as [|p0 rest] eqn:Enon; [now apply (Hfull false)|].
  rewrite <- Enon in *.
  destruct (mark_polys _ _ _ _) as [[[h' w']|]|] eqn:Emark; [| |discriminate];
    cbn [bind] in Hrun; [|now apply (Hfull true)].
  apply mark_polys_inv in Emark. destruct Emark as [Hne Hex].
  destruct (negb (np_all h') && negb (np_all w')); [|now apply (Hfull false)].
  destruct (search _ _ _ _ _ g) as [[found g1]|] eqn:Esearch; [|discriminate].
  cbn [bind] in Hrun. apply search_trace in Esearch.
  destruct Esearch as (T & k & Hk & Hp & Hfound).
  destruct found as [[s1 e1]|].
  - injection Hrun as <- <- <- <-. split; [exact T|].
    exists k. split; [exact Hk|]. split; [exact Hp|].
    destruct Hfound as [_ Hwithin].
    destruct (find_crop_within self data img ps tags Himg Hps Htags Hne g Hex)
      as (s' & e' & g2 & Hrun' & Hcases).
    rewrite Hcopy in Hrun'. injection Hrun' as <- <- <-.
    destruct Hcases as [(-> & -> & _) | (_ & _ & [[-> ->] | Hwin])].
    + left. repeat split. discriminate.
    + left. repeat split. discriminate.
    + right. split; [reflexivity|]. split; [exact Hwin | exact Hwithin].
  - injection Hrun as <- <- <- <-. split; [exact T|].
    exists k. split; [exact Hk|]. split; [exact Hp|]. left. repeat split. discriminate.
Qed.

(** ** Inversion of [__call__] *)

Lemma call_inv {C : Cv2} {K : Shapely}
    (self : t) (data d' : Data) (g g' : RandomState) :
  __call__ self data g = Ok (d', g') ->
  exists s e flag img ps new_polys new_texts new_ignores d2 padded,
    _find_crop self data g = Ok (s, e, flag, g') /\
    image data = Some img /\ polys data = Some ps /\
    retain_loop (set_image data (resized_crop self img s e))
                (snd s, fst s) (snd e, fst e) (crop_scale self s e) 0 ps =
      Ok (new_polys, new_texts, new_ignores) /\
    (if flag
     then hand_bounds (retained_record data (resized_crop self img s e)
                                       new_polys new_texts new_ignores)
     else Ok (retained_record data (resized_crop self img s e)
                              new_polys new_texts new_ignores)) = Ok d2 /\
    image d2 = Some (resized_crop self img s e) /\
    np_pad (resized_crop self img s e)
           (fst (_crop_size self) - fst (img_shape (resized_crop self img s e)))
           (snd (_crop_size self) - snd (img_shape (resized_crop self img s e))) = Ok padded /\
    d' = set_image d2 padded.
Proof.
  intros Hrun.
  destruct (_find_crop self data g) as [[[[s e] flag] g1]|] eqn:Hfind;
    [|unfold __call__ in Hrun; rewrite Hfind in Hrun; discriminate].
  destruct (image data) as [img|] eqn:Himg;
    [|unfold __call__ in Hrun; rewrite Hfind, Himg in Hrun; discriminate].
  destruct (polys data) as [ps|] eqn:Hps;
    [|unfold __call__ in Hrun; rewrite Hfind, Himg in Hrun; cbn in Hrun;
      rewrite Hps in Hrun; discriminate].
  rewrite (call_unfold self data g g1 s e flag img ps Hfind Himg Hps) in Hrun.
  set (resized := resized_crop self img s e) in *.
  destruct (retain_loop _ _ _ _ 0 ps) as [[[np nt] ni]|] eqn:Eloop; [|discriminate].
  cbn [bind] in Hrun.
  destruct (if flag then hand_bounds (retained_record data resized np nt ni)
            else Ok (retained_record data resized np nt ni)) as [d2|] eqn:Ed2; [|discriminate].
  cbn [bind] in Hrun.
  assert (Himg2 : image d2 = Some resized).
  { destruct flag.
    - apply hand_bounds_keeps_texts in Ed2. now destruct Ed2 as [_ ->].
    - now injection Ed2 as <-. }
  rewrite Himg2 in Hrun. cbn [getitem bind] in Hrun.
  destruct (np_pad resized _ _) as [padded|] eqn:Epad; [|discriminate].
  cbn [bind] in Hrun. injection Hrun as <- <-.
  exists s, e, flag, img, ps, np, nt, ni, d2, padded. repeat split; assumption.
Qed.

(** ** Use of the random source *)

(** A call of the crop stage reads the random source at most [4 * max_tries]
    times, four draws per attempt, and never rewrites the tape. *)
Theorem crop_draws_bounded {C : Cv2} {K : Shapely}
    (self : t) (data d' : Data) (g g' : RandomState) :
  __call__ self data g = Ok (d', g') ->
  tape g' = tape g /\
  exists k, (k <= _max_tries self)%nat /\ pos g' = (4 * k + pos g)%nat.
Proof.
  intros Hrun. apply call_inv in Hrun.
  destruct Hrun as (s & e & flag & img & ps & np & nt & ni & d2 & padded & Hfind & _).
  apply find_crop_trace in Hfind.
  destruct Hfind as (_ & _ & _ & _ & _ & _ & T & k & Hk & Hp & _).
  split; [exact T|]. now exists k.
Qed.

Lemma crop_draws_bounded_witness :
  exists d' g' k,
    __call__ (C := nn_cv2) (K := clip_shapely) crop64 scenario_A stride_tape = Ok (d', g') /\
    (k <= 10)%nat /\ pos g' = (4 * k + 0)%nat.
Proof.
  assert (Hrun : exists d' g',
            __call__ (C := nn_cv2) (K := clip_shapely) crop64 scenario_A stride_tape =
              Ok (d', g')).
  { eexists. eexists. vm_compute. reflexivity. }
  destruct Hrun as (d' & g' & Hrun).
  destruct (crop_draws_bounded (C := nn_cv2) (K := clip_shapely)
              crop64 scenario_A d' stride_tape g' Hrun) as (_ & k & Hk & Hp).
  exists d', g', k. repeat split; assumption.
Defined.

(** ** The window never cuts a target *)







(** ** What the retention loop keeps *)

Lemma not_ignored_nth (ps : list polygon) (tags : list bool) (p : polygon) :
  In p (not_ignored ps tags) ->
  exists j, nth_error ps j = Some p /\ nth_error tags j = Some false.
Proof.
  unfold not_ignored. revert tags. induction ps as [|q ps IH]; intros tags Hin.
  - destruct Hin.
  - destruct tags as [|tag tags]; [destruct Hin|].
    cbn [combine filter snd] in Hin. destruct tag; cbn [negb] in Hin.
    + destruct (IH tags Hin) as (j & Hp & Ht). now exists (S j).
    + cbn [map fst] in Hin. destruct Hin as [<- | Hin]; [now exists 0%nat|].
      destruct (IH tags Hin) as (j & Hp & Ht). now exists (S j).
Qed.

Lemma retain_loop_keeps (data : Data) (start_xy end_xy : Z * Z) (scale : Q)
    (rest new_polys : list polygon) (k : nat)
    (new_texts : list string) (new_ignores : list bool) (j : nat) (p : polygon) :
  retain_loop data start_xy end_xy scale k rest = Ok (new_polys, new_texts, new_ignores) ->
  nth_error rest j = Some p -> within_crop p start_xy end_xy = Ok true ->
  In (shift_scale start_xy scale p) new_polys /\
  exists tags, ignore_tags data = Some tags /\
    forall tag, nth_error tags (k + j) = Some tag -> In tag new_ignores.
Proof.
  revert k j new_polys new_texts new_ignores.
  induction rest as [|q rest IH]; intros k j np nt ni Hrun Hj Hw; [now destruct j|].
  cbn [retain_loop] in Hrun.
  destruct (within_crop q start_xy end_xy) as [b|] eqn:Eq; [|discriminate].
  cbn [bind] in Hrun.
  assert (Hrec : forall np' nt' ni' j',
            retain_loop data start_xy end_xy scale (S k) rest = Ok (np', nt', ni') ->
            nth_error rest j' = Some p ->
            In (shift_scale start_xy scale p) np' /\
            exists tags, ignore_tags data = Some tags /\
              forall tag, nth_error tags (k + S j') = Some tag -> In tag ni').
  { intros np' nt' ni' j' H1 H2. destruct (IH (S k) j' np' nt' ni' H1 H2 Hw) as (Hp & tags & Ht & Hall).
    split; [exact Hp|]. exists tags. split; [exact Ht|].
    intros tag Htag. apply Hall. now replace (S k + j')%nat with (k + S j')%nat by lia. }
  destruct b.
  - destruct (getitem "texts" (texts data)) as [ts|]; [|discriminate]. cbn [bind] in Hrun.
    destruct (index ts k) as [text|]; [|discriminate]. cbn [bind] in Hrun.
    destruct (ignore_tags data) as [tags|] eqn:Etags; [|discriminate]. cbn [getitem bind] in Hrun.
    destruct (index tags k) as [tag0|] eqn:Eidx; [|discriminate]. cbn [bind] in Hrun.
    destruct (retain_loop data start_xy end_xy scale (S k) rest) as [[[np' nt'] ni']|] eqn:E;
      [|discriminate].
    cbn [bind] in Hrun. injection Hrun as <- <- <-.
    destruct j as [|j].
    + injection Hj as ->. split; [now left|]. exists tags. split; [reflexivity|].
      intros tag Htag. rewrite Nat.add_0_r in Htag. unfold index in Eidx.
      rewrite Htag in Eidx. injection Eidx as <-. now left.
    + destruct (Hrec np' nt' ni' j eq_refl Hj) as (Hp & tags' & Ht & Hall).
      split; [now right|]. exists tags. split; [reflexivity|].
      injection Ht as <-. intros tag Htag. right. now apply Hall.
  - destruct j as [|j]; [injection Hj as ->; congruence|].
    now apply (Hrec np nt ni j).
Qed.

(** When the search has accepted a window, the returned record is not left
    without targets: it keeps at least one polygon and at least one ignore
    tag that is false. *)
Theorem crop_found_window_keeps_target {C : Cv2} {K : Shapely}
    (self : t) (data d' : Data) (img : Image) (g g1 g' : RandomState)
    (s e : Z * Z) (flag : bool) :
  image data = Some img ->
  _find_crop self data g = Ok (s, e, flag, g1) ->
  e <> img_shape img ->
  __call__ self data g = Ok (d', g') ->
  exists new_polys new_ignores,
    polys d' = Some new_polys /\ ignore_tags d' = Some new_ignores /\
    new_polys <> [] /\ In false new_ignores.
Proof.
  intros Himg Hfind Hfound Hrun.
  apply call_inv in Hrun.
  destruct Hrun as (s' & e' & flag' & img' & ps & np & nt & ni & d2 & padded &
                    Hfind' & Himg' & Hps & Hloop & Hd2 & _ & _ & ->).
  rewrite Hfind in Hfind'. injection Hfind' as <- <- <- <-.
  rewrite Himg in Himg'. injection Himg' as <-.
  apply find_crop_trace in Hfind.
  destruct Hfind as (img2 & ps2 & tags & Himg2 & Hps2 & Htags & _ & k & _ & _ & Hcases).
  rewrite Himg in Himg2. injection Himg2 as <-. rewrite Hps in Hps2. injection Hps2 as <-.
  destruct Hcases as [(_ & He & _) | (Hflag & _ & p & Hp & Hw)]; [contradiction|].
  subst flag. injection Hd2 as <-.
  destruct (not_ignored_nth ps tags p Hp) as (j & Hjp & Hjt).
  destruct (retain_loop_keeps _ _ _ _ _ _ _ _ _ j p Hloop Hjp Hw) as (Hin & tags' & Ht & Hall).
  cbn [ignore_tags set_image] in Ht. rewrite Htags in Ht. injection Ht as <-.
  exists np, ni. cbn. split; [reflexivity|]. split; [reflexivity|].
  split; [intros ->; destruct Hin | apply Hall; exact Hjt].
Qed.

Lemma crop_found_window_keeps_target_witness :
  exists d' new_polys new_ignores,
    polys d' = Some new_polys /\ ignore_tags d' = Some new_ignores /\
    new_polys <> [] /\ In false new_ignores.
Proof.
  assert (Hrun : exists d' g',
            __call__ (C := nn_cv2) (K := clip_shapely) crop64 scenario_A stride_tape =
              Ok (d', g')).
  { eexists. eexists. vm_compute. reflexivity. }
  destruct Hrun as (d' & g' & Hrun).
  destruct (crop_found_window_keeps_target (C := nn_cv2) (K := clip_shapely)
              crop64 scenario_A d' (blank 100 200) stride_tape
              (mkRandomState (fun n => n * 7 + 3)%nat 24) g' (5, 5) (43, 198) false
              eq_refl ltac:(vm_compute; reflexivity) ltac:(discriminate) Hrun)
    as (np & ni & H).
  exists d', np, ni. exact H.
Defined.

(** ** Alignment on the path without repair *)




(** ** What repair leaves alone *)

Lemma hand_bounds_loop_length {K : Shapely} (crop_polys : geometry) (thresh_area : Q)
    (items : list (polygon * bool)) (new_polys : list polygon) (new_dontcare : list bool) :
  hand_bounds_loop crop_polys thresh_area items = Ok (new_polys, new_dontcare) ->
  length new_polys = length new_dontcare /\ (length new_polys <= length items)%nat.
Proof.
  revert new_polys new_dontcare.
  induction items as [|[poly tag] rest IH]; intros np nd Hrun.
  - injection Hrun as <- <-. split; [reflexivity | simpl; lia].
  - cbn [hand_bounds_loop] in Hrun.
    assert (Hskip : hand_bounds_loop crop_polys thresh_area rest = Ok (np, nd) ->
              length np = length nd /\ (length np <= length ((poly, tag) :: rest))%nat).
    { intros H. destruct (IH _ _ H). split; [assumption | simpl; lia]. }
    destruct (intersects crop_polys (Polygon poly)); [|now apply Hskip].
    destruct (Qle_bool thresh_area _); [|now apply Hskip].
    destruct (polygon2numpy _) as [q|]; [|discriminate]. cbn [bind] in Hrun.
    destruct (hand_bounds_loop crop_polys thresh_area rest) as [[np' nd']|] eqn:E;
      [|discriminate].
    cbn [bind] in Hrun. injection Hrun as <- <-.
    destruct (IH _ _ eq_refl) as [L1 L2]. simpl. split; lia.
Qed.

(** [hand_bounds] rewrites [polys] and [ignore_tags] and nothing else: the
    image, the texts and the recorded shape are returned as they came, the
    two rewritten arrays have one length, and that length is at most the
    number of instances that went in. *)
Theorem hand_bounds_frame {K : Shapely} (data d' : Data) :
  hand_bounds data = Ok d' ->
  image d' = image data /\ texts d' = texts data /\ shape d' = shape data /\
  exists ps tags new_polys new_dontcare,
    polys data = Some ps /\ ignore_tags data = Some tags /\
    polys d' = Some new_polys /\ ignore_tags d' = Some new_dontcare /\
    length new_polys = length new_dontcare /\
    (length new_polys <= length ps)%nat /\ (length new_polys <= length tags)%nat.
Proof.
  unfold hand_bounds, hand_bounds_with.
  destruct (image data) as [img|] eqn:Himg; [|discriminate]. cbn [getitem bind].
  destruct (img_shape img) as [h w].
  destruct (polys data) as [ps|] eqn:Hps; [|discriminate]. cbn [getitem bind].
  destruct (ignore_tags data) as [tags|] eqn:Htags; [|discriminate]. cbn [getitem bind].
  destruct (hand_bounds_loop _ _ _) as [[np nd]|] eqn:Eloop; [|discriminate]. cbn [bind].
  intros Hd. injection Hd as <-.
  apply hand_bounds_loop_length in Eloop. destruct Eloop as [L1 L2].
  rewrite length_combine in L2.
  cbn. split; [now rewrite Himg|]. split; [reflexivity|]. split; [reflexivity|].
  exists ps, tags, np, nd. repeat split; solve [assumption | reflexivity | lia].
Qed.

Lemma hand_bounds_frame_witness :
  exists d',
    hand_bounds (K := clip_shapely) overhang_record = Ok d' /\
    image d' = image overhang_record /\ texts d' = texts overhang_record.
Proof.
  assert (Hrun : exists d', hand_bounds (K := clip_shapely) overhang_record = Ok d').
  { eexists. vm_compute. reflexivity. }
  destruct Hrun as (d' & Hrun).
  destruct (hand_bounds_frame (K := clip_shapely) overhang_record d' Hrun) as (Hi & Ht & _).
  exists d'. repeat split; assumption.
Defined.

(** ** The size of the returned image *)

(** Whenever the stage returns and the resized crop is a non-empty raster, the
    returned image is exactly [crop_size], on every path. *)
Theorem crop_output_has_crop_size {C : Cv2} {K : Shapely}
    (self : t) (data d' : Data) (img : Image) (g g1 g' : RandomState)
    (s e : Z * Z) (flag : bool) (h w : Z) :
  image data = Some img ->
  _find_crop self data g = Ok (s, e, flag, g1) ->
  has_shape (resized_crop self img s e) h w -> 0 < h ->
  __call__ self data g = Ok (d', g') ->
  h <= fst (_crop_size self) /\ w <= snd (_crop_size self) /\
  exists padded,
    image d' = Some padded /\
    has_shape padded (fst (_crop_size self)) (snd (_crop_size self)).
Proof.
  intros Himg Hfind Hshape Hh Hrun.
  apply call_inv in Hrun.
  destruct Hrun as (s' & e' & flag' & img' & ps & np & nt & ni & d2 & padded &
                    Hfind' & Himg' & _ & _ & _ & _ & Hpad & ->).
  rewrite Hfind in Hfind'. injection Hfind' as <- <- <- <-.
  rewrite Himg in Himg'. injection Himg' as <-.
  rewrite (has_shape_img_shape _ _ _ Hshape Hh) in Hpad. cbn [fst snd] in Hpad.
  pose proof (np_pad_ok _ _ _ _ Hpad) as [Hph Hpw].
  destruct (np_pad_spec _ h w _ _ Hshape Hh Hph Hpw) as (padded' & Hpad' & Hps & _).
  rewrite Hpad in Hpad'. injection Hpad' as <-.
  split; [lia|]. split; [lia|]. exists padded. split; [reflexivity|].
  replace (h + (fst (_crop_size self) - h)) with (fst (_crop_size self)) in Hps by lia.
  replace (w + (snd (_crop_size self) - w)) with (snd (_crop_size self)) in Hps by lia.
  exact Hps.
Qed.

Lemma crop_output_has_crop_size_witness :
  exists d' padded, image d' = Some padded /\ has_shape padded 64 64.
Proof.
  assert (Hrun : exists d' g',
            __call__ (C := nn_cv2) (K := clip_shapely) crop64 scenario_A stride_tape =
              Ok (d', g')).
  { eexists. eexists. vm_compute. reflexivity. }
  destruct Hrun as (d' & g' & Hrun).
  destruct (crop_output_has_crop_size (C := nn_cv2) (K := clip_shapely)
              crop64 scenario_A d' (blank 100 200) stride_tape
              (mkRandomState (fun n => n * 7 + 3)%nat 24) g' (5, 5) (43, 198) false 13 64
              eq_refl ltac:(vm_compute; reflexivity)) as (_ & _ & padded & Hp & Hs).
  - apply nn_cv2_sound; vm_compute; reflexivity.
  - lia.
  - exact Hrun.
  - exists d', padded. split; assumption.
Defined.

(** ** ScalePadImage: polygons and the exact-size case *)




Lemma np_pad_nothing (img : Image) : np_pad img 0 0 = Ok img.
Proof.
  unfold np_pad. cbn [Z.ltb Z.compare orb Z.to_nat repeat]. rewrite app_nil_r.
  f_equal. rewrite <- (map_id img) at 2. apply map_ext. intros r. apply app_nil_r.
Qed.

(** An image that already has the target size is resized to its own size and
    gets no padding; the scale is 1 and every polygon coordinate keeps its
    value. *)
Theorem scale_pad_exact_size {C : Cv2}
    (self : ScalePadImage.t) (data : Data) (img : Image) (H W : Z) :
  image data = Some img -> img_shape img = (H, W) -> 0 < H -> 0 < W ->
  ScalePadImage._target_size self = (H, W) ->
  exists scale,
    (scale == 1)%Q /\
    ScalePadImage.__call__ self data =
      Ok (mkData (Some (cv2_resize img W H)) (option_map (scale_polys scale) (polys data))
                 (texts data) (ignore_tags data)
                 (Some [inject_Z H; inject_Z W; scale; scale])) /\
    forall v, (fst (scale_point scale v) == fst v /\ snd (scale_point scale v) == snd v)%Q.
Proof.
  intros Himg Hshape HH HW Htarget.
  set (scale := Qmin (inject_Z H / inject_Z H) (inject_Z W / inject_Z W)).
  assert (Hqh : (0 < inject_Z H)%Q) by (change 0%Q with (inject_Z 0); now rewrite <- Zlt_Qlt).
  assert (Hqw : (0 < inject_Z W)%Q) by (change 0%Q with (inject_Z 0); now rewrite <- Zlt_Qlt).
  assert (Hone : (scale == 1)%Q).
  { unfold scale.
    assert (E1 : (inject_Z H / inject_Z H == 1)%Q) by (field; lra).
    assert (E2 : (inject_Z W / inject_Z W == 1)%Q) by (field; lra).
    pose proof (Q.le_min_l (inject_Z H / inject_Z H) (inject_Z W / inject_Z W)).
    pose proof (Q.min_glb (inject_Z H / inject_Z H) (inject_Z W / inject_Z W) 1
                  ltac:(lra) ltac:(lra)).
    lra. }
  exists scale. split; [exact Hone|]. split.
  - unfold ScalePadImage.__call__. rewrite Himg. cbn [getitem bind].
    rewrite Hshape, Htarget. cbn [fst snd set_image image getitem bind]. fold scale.
    rewrite (np_round_eq_Z (scale * inject_Z H) H) by (rewrite Hone; ring).
    rewrite (np_round_eq_Z (scale * inject_Z W) W) by (rewrite Hone; ring).
    rewrite !Z.sub_diag, np_pad_nothing. cbn [bind].
    destruct data as [i [p|] t tg sh]; reflexivity.
  - intros v. unfold scale_point. cbn [fst snd]. rewrite Hone. split; ring.
Qed.

Lemma scale_pad_exact_size_witness :
  exists scale d',
    (scale == 1)%Q /\
    ScalePadImage.__call__ (C := nn_cv2) pad640
      (mkData (Some (blank 640 640)) None None None None) = Ok d' /\
    image d' = Some (cv2_resize (Cv2 := nn_cv2) (blank 640 640) 640 640).
Proof.
  destruct (scale_pad_exact_size (C := nn_cv2) pad640
              (mkData (Some (blank 640 640)) None None None None) (blank 640 640) 640 640
              eq_refl eq_refl ltac:(lia) ltac:(lia) eq_refl) as (scale & Hone & Hrun & _).
  exists scale. eexists. split; [exact Hone|]. split; [exact Hrun | reflexivity].
Defined.

(** ** GridResize *)

Lemma Qpos_inject (n : Z) : 0 < n -> (0 < inject_Z n)%Q.
Proof. intros H. change 0%Q with (inject_Z 0). now rewrite <- Zlt_Qlt. Qed.

Lemma grid_size_spec (f n : Z) :
  0 < f -> 0 < n ->
  (f | grid_size f n) /\ n <= grid_size f n < n + f.
Proof.
  intros Hf Hn. unfold grid_size.
  pose proof (Qpos_inject f Hf) as Hqf.
  set (q := (inject_Z n / inject_Z f)%Q).
  assert (Hq : (q * inject_Z f == inject_Z n)%Q) by (unfold q; field; lra).
  pose proof (Qle_ceiling q) as Hle. pose proof (Qceiling_lt q) as Hlt.
  split; [apply Z.divide_factor_r|].
  assert (H1 : (inject_Z n <= inject_Z (Qceiling q * f))%Q).
  { rewrite inject_Z_mult, <- Hq. apply Qmult_le_compat_r; lra. }
  assert (H2 : (inject_Z (Qceiling q * f) < inject_Z (n + f))%Q).
  { rewrite inject_Z_mult, inject_Z_plus, <- Hq.
    change (Qceiling q - 1) with (Qceiling q + -1) in Hlt.
    rewrite inject_Z_plus in Hlt. change (inject_Z (-1)) with (-1 # 1)%Q in Hlt.
    assert ((inject_Z (Qceiling q) - 1) * inject_Z f < q * inject_Z f)%Q
      by (apply Qmult_lt_compat_r; lra).
    lra. }
  rewrite <- Zle_Qle in H1. rewrite <- Zlt_Qlt in H2. lia.
Qed.

Lemma grid_scale_size (self : GridResize.t) (n : Z) :
  0 < n ->
  (inject_Z n * GridResize.grid_scale self n
   == inject_Z (grid_size (GridResize._factor self) n))%Q.
Proof.
  intros Hn. pose proof (Qpos_inject n Hn). unfold GridResize.grid_scale, grid_size.
  rewrite inject_Z_mult. field. lra.
Qed.

Lemma grid_call_unfold {C : Cv2} (self : GridResize.t) (data : Data) (img : Image) (H W : Z) :
  image data = Some img -> img_shape img = (H, W) ->
  GridResize.__call__ self data =
    Ok (mkData (Some (cv2_resize img (np_round (inject_Z W * GridResize.grid_scale self W))
                                     (np_round (inject_Z H * GridResize.grid_scale self H))))
               (option_map (scale_polys_xy (GridResize.grid_scale self W)
                                           (GridResize.grid_scale self H)) (polys data))
               (texts data) (ignore_tags data) (shape data)).
Proof.
  intros Himg Hshape. unfold GridResize.__call__. rewrite Himg. cbn [getitem bind].
  unfold cv2_resize_scale. rewrite Hshape. cbn [fst snd].
  destruct data as [i [p|] t tg sh]; reflexivity.
Qed.

(** The image leaves [GridResize] with both sides a multiple of the factor:
    each side is rounded up to the next multiple, so it never shrinks and
    grows by less than the factor.  Texts, ignore tags and the recorded
    shape are not touched. *)
Theorem grid_resize_divisible {C : Cv2}
    (self : GridResize.t) (data : Data) (img : Image) (H W : Z) :
  cv2_sound C ->
  image data = Some img -> has_shape img H W -> 0 < H -> 0 < W ->
  0 < GridResize._factor self ->
  exists d' out H' W',
    GridResize.__call__ self data = Ok d' /\
    image d' = Some out /\ has_shape out H' W' /\
    (GridResize._factor self | H') /\ (GridResize._factor self | W') /\
    H <= H' < H + GridResize._factor self /\
    W <= W' < W + GridResize._factor self /\
    texts d' = texts data /\ ignore_tags d' = ignore_tags data /\ shape d' = shape data.
Proof.
  intros Hcv Himg Hshape HH HW Hf.
  pose proof (has_shape_img_shape img H W Hshape HH) as Hsz.
  destruct (grid_size_spec _ H Hf HH) as [HdH HrH].
  destruct (grid_size_spec _ W Hf HW) as [HdW HrW].
  eexists. eexists. exists (grid_size (GridResize._factor self) H).
  exists (grid_size (GridResize._factor self) W).
  split; [apply (grid_call_unfold self data img H W Himg Hsz)|].
  cbn [image texts ignore_tags shape].
  rewrite (np_round_eq_Z _ _ (grid_scale_size self H HH)).
  rewrite (np_round_eq_Z _ _ (grid_scale_size self W HW)).
  split; [reflexivity|]. split; [apply Hcv; lia|]. repeat split; assumption || lia.
Qed.

Lemma grid_resize_divisible_witness :
  exists d' out H' W',
    GridResize.__call__ (C := nn_cv2) grid32 scenario_D = Ok d' /\
    image d' = Some out /\ has_shape out H' W' /\
    (32 | H') /\ (32 | W') /\ 480 <= H' < 480 + 32 /\ 320 <= W' < 320 + 32.
Proof.
  destruct (grid_resize_divisible (C := nn_cv2) grid32 scenario_D (blank 480 320) 480 320
              nn_cv2_sound eq_refl (blank_has_shape 480 320) ltac:(lia) ltac:(lia)
              ltac:(cbn; lia))
    as (d' & out & H' & W' & Hrun & Hout & Hsh & HdH & HdW & HrH & HrW & _).
  exists d', out, H', W'.
  exact (conj Hrun (conj Hout (conj Hsh (conj HdH (conj HdW (conj HrH HrW)))))).
Defined.



(** An image whose sides are already multiples of the factor keeps its size
    in [GridResize], and both scale factors are 1: polygon coordinates keep
    their values.  The stage is thus idempotent on sizes. *)
Theorem grid_resize_aligned {C : Cv2}
    (self : GridResize.t) (data : Data) (img : Image) (H W : Z) :
  image data = Some img -> has_shape img H W -> 0 < H -> 0 < W ->
  0 < GridResize._factor self ->
  (GridResize._factor self | H) -> (GridResize._factor self | W) ->
  exists sx sy,
    (sx == 1)%Q /\ (sy == 1)%Q /\
    GridResize.__call__ self data =
      Ok (mkData (Some (cv2_resize img W H)) (option_map (scale_polys_xy sx sy) (polys data))
                 (texts data) (ignore_tags data) (shape data)).
Proof.
  intros Himg Hshape HH HW Hf HdH HdW.
  pose proof (has_shape_img_shape img H W Hshape HH) as Hsz.
  assert (Hfix : forall n, 0 < n -> (GridResize._factor self | n) ->
                           grid_size (GridResize._factor self) n = n).
  { intros n Hn [k Hk]. destruct (grid_size_spec _ n Hf Hn) as [[m Hm] Hr].
    rewrite Hm in *. subst n. set (f := GridResize._factor self) in *.
    assert (k <= m) by (apply (Z.mul_le_mono_pos_r _ _ f); lia).
    assert (m < k + 1) by (apply (Z.mul_lt_mono_pos_r f); lia).
    f_equal. lia. }
  pose proof (grid_scale_size self H HH) as EH. pose proof (grid_scale_size self W HW) as EW.
  rewrite (Hfix H HH HdH) in EH. rewrite (Hfix W HW HdW) in EW.
  pose proof (Qpos_inject H HH) as HqH. pose proof (Qpos_inject W HW) as HqW.
  exists (GridResize.grid_scale self W), (GridResize.grid_scale self H).
  split; [|split].
  - apply (Qmult_inj_l _ _ (inject_Z W)); [lra | rewrite EW; ring].
  - apply (Qmult_inj_l _ _ (inject_Z H)); [lra | rewrite EH; ring].
  - rewrite (grid_call_unfold self data img H W Himg Hsz).
    rewrite (np_round_eq_Z _ _ EH), (np_round_eq_Z _ _ EW). reflexivity.
Qed.

Lemma grid_resize_aligned_witness :
  exists sx sy d',
    (sx == 1)%Q /\ (sy == 1)%Q /\
    GridResize.__call__ (C := nn_cv2) grid32
      (mkData (Some (blank 64 96)) None None None None) = Ok d' /\
    image d' = Some (cv2_resize (Cv2 := nn_cv2) (blank 64 96) 96 64).
Proof.
  destruct (grid_resize_aligned (C := nn_cv2) grid32
              (mkData (Some (blank 64 96)) None None None None) (blank 64 96) 64 96
              eq_refl (blank_has_shape 64 96) ltac:(lia) ltac:(lia) ltac:(cbn; lia)
              ltac:(exists 2; reflexivity) ltac:(exists 3; reflexivity))
    as (sx & sy & Hx & Hy & Hrun).
  exists sx, sy. eexists. split; [exact Hx|]. split; [exact Hy|].
  split; [exact Hrun | reflexivity].
Defined.

(** ** RandomScale *)









(** ** NormalizeImage *)

Lemma reshape3_ok (val : list Q) : length val = 3%nat -> reshape3 val = Ok val.
Proof. intros H. unfold reshape3. now rewrite H. Qed.

Lemma reshape3_raise (val : list Q) : length val <> 3%nat -> reshape3 val = Raise ValueError.
Proof.
  intros H. unfold reshape3. destruct (Nat.eqb_spec (length val) 3); [contradiction | reflexivity].
Qed.

Lemma get_value_reshape (M S : list Q) (val : pyvalue) (name : value_name) :
  let constant := match name with name_mean => M | name_std => S end in
  (accepted constant val ->
   (v <- NormalizeImage._get_value M S val name ;; reshape3 v) = Ok (resolved constant val)) /\
  (~ accepted constant val ->
   (v <- NormalizeImage._get_value M S val name ;; reshape3 v) = Raise ValueError).
Proof.
  intros constant. destruct val as [s|l|]; cbn [NormalizeImage._get_value accepted resolved].
  - destruct (String.eqb_spec (lower s) "imagenet") as [E|NE]; cbn [bind]; fold constant.
    + split; [intros [_ Hl]; now apply reshape3_ok|].
      intros Hn. apply reshape3_raise. intros Hl. apply Hn. now split.
    + split; [intros [E _]; contradiction | reflexivity].
  - cbn [bind]. split; [apply reshape3_ok | apply reshape3_raise].
  - cbn [bind]. split; [intros [] | reflexivity].
Qed.

(** The constructor of [NormalizeImage] accepts, for [mean] and for [std], a
    list of exactly three numbers or a string that reads ['imagenet'] in any
    letter case (the constant it stands for must have three entries).  Any
    other value (a tuple, a number, another string, a list of another
    length) is rejected, and always with [ValueError]. *)
Theorem normalize_init_accepts (M S : list Q) (mean std : pyvalue)
    (is_hwc bgr_to_rgb rgb_to_bgr : bool) :
  (accepted M mean /\ accepted S std ->
   NormalizeImage.__init__ M S mean std is_hwc bgr_to_rgb rgb_to_bgr =
     Ok {| NormalizeImage._channel_conversion := bgr_to_rgb || rgb_to_bgr;
           NormalizeImage.mean := resolved M mean;
           NormalizeImage.std := resolved S std;
           NormalizeImage.is_hwc := is_hwc |}) /\
  (~ (accepted M mean /\ accepted S std) ->
   NormalizeImage.__init__ M S mean std is_hwc bgr_to_rgb rgb_to_bgr = Raise ValueError).
Proof.
  unfold NormalizeImage.__init__.
  destruct (get_value_reshape M S mean name_mean) as [Hm1 Hm2].
  destruct (get_value_reshape M S std name_std) as [Hs1 Hs2].
  cbv zeta in Hm1, Hm2, Hs1, Hs2. split.
  - intros [Hm Hs]. rewrite (Hm1 Hm). cbn [bind]. rewrite (Hs1 Hs). reflexivity.
  - intros Hn.
    assert (Hdec : accepted M mean \/ ~ accepted M mean).
    { destruct mean as [s|l|]; cbn [accepted].
      - destruct (String.eqb_spec (lower s) "imagenet");
          destruct (Nat.eq_dec (length M) 3); tauto.
      - destruct (Nat.eq_dec (length l) 3); tauto.
      - tauto. }
    destruct Hdec as [Hm|Hm].
    + rewrite (Hm1 Hm). cbn [bind]. rewrite Hs2 by tauto. reflexivity.
    + rewrite (Hm2 Hm). reflexivity.
Qed.

Lemma normalize_init_accepts_witness :
  NormalizeImage.__init__ half_mean half_std (PStr "ImageNet") (PList half_std)
    true true false = Ok (normalize_hwc true) /\
  NormalizeImage.__init__ half_mean half_std POther (PList half_std)
    true true false = Raise ValueError.
Proof.
  destruct (normalize_init_accepts half_mean half_std (PStr "ImageNet") (PList half_std)
              true true false) as [Hok _].
  destruct (normalize_init_accepts half_mean half_std POther (PList half_std)
              true true false) as [_ Hbad].
  split.
  - apply Hok. cbn. repeat split; reflexivity.
  - apply Hbad. cbn. tauto.
Defined.

Lemma nth_map_lt {A B : Type} (f : A -> B) (l : list A) (i : nat) (d : A) (d' : B) :
  (i < length l)%nat -> nth i (map f l) d' = f (nth i l d).
Proof.
  intros H. rewrite (nth_indep _ d' (f d)) by (now rewrite length_map). apply map_nth.
Qed.

Lemma img_channels_cons (img : Image) (n : nat) :
  img_channels img = S n -> exists px row rest, img = (px :: row) :: rest /\ length px = S n.
Proof.
  unfold img_channels. destruct img as [|[|px row] rest]; cbn; try discriminate.
  intros H. now exists px, row, rest.
Qed.

Lemma map_map_map {A B D : Type} (h : A -> B) (g : B -> D) (l : list (list A)) :
  map (map g) (map (map h) l) = map (map (fun x => g (h x))) l.
Proof. rewrite map_map. apply map_ext. intros r. apply map_map. Qed.

Lemma channels_map {A B : Type} (f : list A -> list B) (img : list (list (list A))) (n : nat) :
  length (hd [] (hd [] img)) = S n -> (forall px, length (f px) = 3%nat) ->
  length (hd [] (hd [] (map (map f) img))) = 3%nat.
Proof.
  intros H Hf. destruct img as [|[|px row] rest]; cbn in *; try discriminate. apply Hf.
Qed.

Lemma take_210_last_ok (img : Image) :
  (3 <= img_channels img)%nat ->
  take_210_last img = Ok (map (map (fun px => [nth 2 px 0; nth 1 px 0; nth 0 px 0])) img).
Proof.
  intros H. unfold take_210_last. destruct (Nat.ltb_spec (img_channels img) 3); [lia|].
  reflexivity.
Qed.

Lemma normalize_last_ok (mean std : list Q) (img : Image) :
  img_channels img = 3%nat ->
  normalize_last mean std img =
    Ok (map (map (fun px => map (fun c => norm_sample (nth c px 0) (nth c mean 0%Q)
                                                      (nth c std 0%Q)) (seq 0 3))) img).
Proof. intros H. unfold normalize_last. rewrite H. reflexivity. Qed.

Lemma normalize_call_hwc (self : NormalizeImage.t) (data : Data) (img : Image) :
  image data = Some img -> NormalizeImage.is_hwc self = true ->
  NormalizeImage.__call__ self data =
    (img' <- (if NormalizeImage._channel_conversion self then take_210_last img else Ok img) ;;
     out <- normalize_last (NormalizeImage.mean self) (NormalizeImage.std self) img' ;;
     Ok (set_fimage data out)).
Proof.
  intros Himg Hhwc. unfold NormalizeImage.__call__. rewrite Himg, Hhwc. reflexivity.
Qed.

(** On a channel-last raster of three channels, [NormalizeImage] returns a
    raster of the same layout whose sample [c] at every pixel is
    [(x - mean[c]) / std[c]], where [x] is the sample [c] of the input pixel,
    or the sample [2 - c] when a channel conversion is configured.  With a
    non-zero [std[c]] the input sample is recovered as
    [y * std[c] + mean[c]]. *)
Theorem normalize_hwc_pixels (self : NormalizeImage.t) (data : Data) (img : Image) :
  image data = Some img -> img_channels img = 3%nat ->
  NormalizeImage.is_hwc self = true ->
  exists out,
    NormalizeImage.__call__ self data = Ok (set_fimage data out) /\
    length out = length img /\
    forall i j c,
      (i < length img)%nat -> (j < length (nth i img []))%nat -> (c < 3)%nat ->
      length (nth i out []) = length (nth i img []) /\
      length (nth j (nth i out []) []) = 3%nat /\
      let x := nth (if NormalizeImage._channel_conversion self then 2 - c else c)%nat
                   (nth j (nth i img []) []) 0 in
      let y := nth c (nth j (nth i out []) []) 0%Q in
      let m := nth c (NormalizeImage.mean self) 0%Q in
      let s := nth c (NormalizeImage.std self) 0%Q in
      y = norm_sample x m s /\ (~ (s == 0)%Q -> (y * s + m == inject_Z x)%Q).
Proof.
  intros Himg HC Hhwc.
  set (pick := fun px : list Z =>
                 if NormalizeImage._channel_conversion self
                 then [nth 2 px 0; nth 1 px 0; nth 0 px 0] else px).
  set (f := fun px : list Z =>
              map (fun c => norm_sample (nth c (pick px) 0)
                                        (nth c (NormalizeImage.mean self) 0%Q)
                                        (nth c (NormalizeImage.std self) 0%Q)) (seq 0 3)).
  exists (map (map f) img).
  split.
  - rewrite (normalize_call_hwc self data _ Himg Hhwc). unfold f, pick.
    destruct (NormalizeImage._channel_conversion self).
    + rewrite take_210_last_ok by lia. cbn [bind].
      rewrite normalize_last_ok
        by (apply (channels_map (A := Z) (B := Z) _ img 2); [exact HC | reflexivity]).
      cbn [bind]. rewrite map_map_map. reflexivity.
    + cbn [bind]. rewrite normalize_last_ok by exact HC. reflexivity.
  - split; [now rewrite length_map|]. intros i j c Hi Hj Hc.
    rewrite (nth_map_lt (map f) _ i [] []) by exact Hi.
    rewrite length_map. split; [reflexivity|].
    rewrite (nth_map_lt f _ j [] []) by exact Hj.
    set (p := nth j (nth i img []) []).
    split; [reflexivity|]. cbv zeta.
    assert (Hy : nth c (f p) 0%Q =
                 norm_sample (nth (if NormalizeImage._channel_conversion self
                                   then 2 - c else c)%nat p 0)
                             (nth c (NormalizeImage.mean self) 0%Q)
                             (nth c (NormalizeImage.std self) 0%Q)).
    { unfold f, pick.
      destruct c as [|[|[|c]]]; [| | |lia];
        destruct (NormalizeImage._channel_conversion self); reflexivity. }
    rewrite Hy. split; [reflexivity|]. intros Hs. unfold norm_sample. field. exact Hs.
Qed.

Lemma normalize_hwc_pixels_witness :
  exists out,
    NormalizeImage.__call__ (normalize_hwc true)
      (mkData (Some rgb_pixel_image) None None None None) =
      Ok (set_fimage (mkData (Some rgb_pixel_image) None None None None) out) /\
    nth 0 (nth 1 (nth 0 out []) []) 0%Q = norm_sample 60 (1 # 2) 2.
Proof.
  destruct (normalize_hwc_pixels (normalize_hwc true)
              (mkData (Some rgb_pixel_image) None None None None) rgb_pixel_image
              eq_refl eq_refl eq_refl) as (out & Hrun & _ & Hpix).
  exists out. split; [exact Hrun|].
  destruct (Hpix 0%nat 1%nat 0%nat ltac:(cbn; lia) ltac:(cbn; lia) ltac:(lia))
    as (_ & _ & Hy & _).
  exact Hy.
Defined.



(** ** ToCHWImage *)

(** Normalising a channel-last raster of three channels and then moving the
    channel axis to the front gives the same record as moving the axis first
    and normalising with [is_hwc=False], for the same mean, std and channel
    conversion; and both pipelines run without error. *)
Theorem normalize_commutes_with_to_chw (conversion : bool) (mean std : list Q)
    (data : Data) (img : Image) :
  image data = Some img -> img_channels img = 3%nat ->
  let hwc := {| NormalizeImage._channel_conversion := conversion;
                NormalizeImage.mean := mean; NormalizeImage.std := std;
                NormalizeImage.is_hwc := true |} in
  let chw := {| NormalizeImage._channel_conversion := conversion;
                NormalizeImage.mean := mean; NormalizeImage.std := std;
                NormalizeImage.is_hwc := false |} in
  exists out,
    (d <- NormalizeImage.__call__ hwc data ;; ToCHWImage.call_f32 to_chw d) = Ok out /\
    (d <- ToCHWImage.__call__ to_chw data ;; NormalizeImage.__call__ chw d) = Ok out.
Proof.
  intros Himg HC hwc chw.
  rewrite (normalize_call_hwc hwc data img Himg eq_refl).
  unfold NormalizeImage.__call__, ToCHWImage.__call__, ToCHWImage.call_f32.
  rewrite Himg. cbn [getitem bind image set_image]. rewrite HC.
  unfold hwc, chw.
  cbn [NormalizeImage._channel_conversion NormalizeImage.is_hwc NormalizeImage.mean
       NormalizeImage.std].
  unfold take_210_first, normalize_first, transpose_201 at 2 3.
  cbn [seq map length Nat.ltb Nat.leb Nat.eqb orb nth bind].
  assert (Hrev : img_channels
                   (map (map (fun px => [nth 2 px 0; nth 1 px 0; nth 0 px 0])) img) = 3%nat).
  { apply (channels_map (A := Z) (B := Z) _ img 2); [exact HC | reflexivity]. }
  assert (Hout : forall (img' : Image) (f : list Z -> nat -> Q),
             img_channels img' = 3%nat ->
             length (hd [] (hd [] (map (map (fun px => map (f px) (seq 0 3))) img'))) = 3%nat).
  { intros img' f H'. apply (channels_map (A := Z) (B := Q) _ img' 2); [exact H'|].
    intros px. now rewrite length_map. }
  destruct conversion.
  - rewrite take_210_last_ok by lia. cbn [bind].
    rewrite normalize_last_ok by exact Hrev.
    cbn [bind fimage set_fimage getitem].
    rewrite (Hout _ (fun px c => norm_sample (nth c px 0) (nth c mean 0%Q) (nth c std 0%Q))
               Hrev).
    eexists. split; [reflexivity|].
    unfold set_fimage, transpose_201.
    cbn [seq map nth length Nat.eqb orb bind image polys texts ignore_tags shape
         fpolys ftexts fignore_tags fshape].
    rewrite !map_map_map. reflexivity.
  - cbn [bind]. rewrite normalize_last_ok by exact HC.
    cbn [bind fimage set_fimage getitem].
    rewrite (Hout _ (fun px c => norm_sample (nth c px 0) (nth c mean 0%Q) (nth c std 0%Q))
               HC).
    eexists. split; [reflexivity|].
    unfold set_fimage, transpose_201.
    cbn [seq map nth length Nat.eqb orb bind image polys texts ignore_tags shape
         fpolys ftexts fignore_tags fshape].
    rewrite !map_map_map. reflexivity.
Qed.

Lemma normalize_commutes_with_to_chw_witness :
  exists out,
    (d <- NormalizeImage.__call__ (normalize_hwc true)
            (mkData (Some rgb_pixel_image) None None None None) ;;
     ToCHWImage.call_f32 to_chw d) = Ok out /\
    fimage out = Some [[[norm_sample 30 (1 # 2) 2; norm_sample 60 (1 # 2) 2]];
                       [[norm_sample 20 1 4; norm_sample 50 1 4]];
                       [[norm_sample 10 2 5; norm_sample 40 2 5]]].
Proof.
  destruct (normalize_commutes_with_to_chw true half_mean half_std
              (mkData (Some rgb_pixel_image) None None None None) rgb_pixel_image
              eq_refl eq_refl) as (out & Hhwc & _).
  exists out. split; [exact Hhwc|].
  assert (E : Ok out = Ok (mkFData
                (Some [[[norm_sample 30 (1 # 2) 2; norm_sample 60 (1 # 2) 2]];
                       [[norm_sample 20 1 4; norm_sample 50 1 4]];
                       [[norm_sample 10 2 5; norm_sample 40 2 5]]]) None None None None)).
  { rewrite <- Hhwc. reflexivity. }
  injection E as ->. reflexivity.
Defined.

(** ** PackLoaderInputs *)

Lemma pack_done {V : Type} (data : string -> option V) (columns : list string)
    (out res : list V) :
  PackLoaderInputs.pack data columns out = Done res <->
  exists vs, res = out ++ vs /\ Forall2 (fun k v => data k = Some v) columns vs.
Proof.
  revert out. induction columns as [|k rest IH]; intros out; cbn [PackLoaderInputs.pack].
  - split.
    + intros E. injection E as <-. exists []. split; [now rewrite app_nil_r | constructor].
    + intros (vs & -> & HF). inversion HF. now rewrite app_nil_r.
  - destruct (data k) as [v|] eqn:Ek.
    + rewrite IH. split.
      * intros (vs & -> & HF). exists (v :: vs). rewrite <- app_assoc. split; [reflexivity|].
        constructor; assumption.
      * intros (vs & -> & HF). inversion HF as [|k' v' rest' vs' Hk Hrest]; subst.
        rewrite Ek in Hk. injection Hk as <-. exists vs'. rewrite <- app_assoc.
        split; [reflexivity | assumption].
    + split; [discriminate|]. intros (vs & _ & HF). inversion HF; subst. congruence.
Qed.

(** [PackLoaderInputs] returns a tuple exactly when every output column is a
    key of the record, and the tuple then holds the values of the columns,
    one per column and in the order of [output_columns] (a column listed
    twice is output twice). *)
Theorem pack_returns_columns_in_order {V : Type}
    (self : PackLoaderInputs.t) (data : string -> option V) (out : list V) :
  PackLoaderInputs.__call__ self data = Done out <->
  Forall2 (fun k v => data k = Some v) (PackLoaderInputs.output_columns self) out.
Proof.
  unfold PackLoaderInputs.__call__. rewrite pack_done. split.
  - intros (vs & -> & HF). exact HF.
  - intros HF. exists out. split; [reflexivity | exact HF].
Qed.

Lemma pack_returns_columns_in_order_witness :
  PackLoaderInputs.__call__
    {| PackLoaderInputs.output_columns := ["texts"; "image"; "texts"]%string |}
    (as_dict scenario_A) =
  Done [VTexts ["text"%string]; VImage (blank 100 200); VTexts ["text"%string]].
Proof.
  apply (proj2 (pack_returns_columns_in_order
                  {| PackLoaderInputs.output_columns := ["texts"; "image"; "texts"]%string |}
                  (as_dict scenario_A)
                  [VTexts ["text"%string]; VImage (blank 100 200); VTexts ["text"%string]])).
  repeat constructor.
Defined.

(** [PackLoaderInputs] fails exactly when some output column is not a key of
    the record, and the assertion then names the first such column. *)
Theorem pack_names_first_missing_column {V : Type}
    (self : PackLoaderInputs.t) (data : string -> option V) (key : string) :
  PackLoaderInputs.__call__ self data = AssertionError key <->
  exists before after,
    PackLoaderInputs.output_columns self = before ++ key :: after /\
    Forall (fun k => data k <> None) before /\ data key = None.
Proof.
  unfold PackLoaderInputs.__call__. generalize (@nil V) as out.
  induction (PackLoaderInputs.output_columns self) as [|k rest IH]; intros out;
    cbn [PackLoaderInputs.pack].
  - split; [discriminate|]. intros (before & after & E & _). now destruct before.
  - destruct (data k) as [v|] eqn:Ek.
    + rewrite IH. split.
      * intros (before & after & -> & HF & Hkey). exists (k :: before), after.
        split; [reflexivity|]. split; [constructor; [congruence | assumption] | assumption].
      * intros (before & after & E & HF & Hkey). destruct before as [|b before].
        -- injection E as -> _. congruence.
        -- injection E as -> ->. exists before, after. inversion HF; subst.
           split; [reflexivity|]. split; assumption.
    + split.
      * intros E. injection E as <-. exists [], rest. repeat split; [constructor | assumption].
      * intros (before & after & E & HF & Hkey). destruct before as [|b before].
        -- injection E as -> _. reflexivity.
        -- injection E as -> _. inversion HF; subst. contradiction.
Qed.

Lemma pack_names_first_missing_column_witness :
  PackLoaderInputs.__call__
    {| PackLoaderInputs.output_columns := ["image"; "shape"; "label"]%string |}
    (as_dict scenario_A) = AssertionError "shape".
Proof.
  apply (proj2 (pack_names_first_missing_column
                  {| PackLoaderInputs.output_columns := ["image"; "shape"; "label"]%string |}
                  (as_dict scenario_A) "shape")).
  exists ["image"%string], ["label"%string]. split; [reflexivity|].
  split; [|reflexivity]. constructor; [discriminate | constructor].
Defined.

(** After [ScalePadImage] the columns ['image'] and ['shape'] can always be
    packed, and ['shape'] holds four numbers; packing ['polys'] fails exactly
    when the record entered the stage without polygons. *)
Theorem scale_pad_then_pack {C : Cv2}
    (self : ScalePadImage.t) (data d' : Data) :
  ScalePadImage.__call__ self data = Ok d' ->
  (exists img sh,
     PackLoaderInputs.__call__
       {| PackLoaderInputs.output_columns := ["image"; "shape"]%string |} (as_dict d') =
       Done [VImage img; VShape sh] /\
     image d' = Some img /\ length sh = 4%nat) /\
  (PackLoaderInputs.__call__
     {| PackLoaderInputs.output_columns := ["image"; "polys"]%string |} (as_dict d') =
     AssertionError "polys" <-> polys data = None).
Proof.
  intros Hrun. unfold ScalePadImage.__call__ in Hrun.
  destruct (image data) as [img|] eqn:Himg; [|discriminate]. cbn [getitem bind] in Hrun.
  cbn [set_image image getitem bind] in Hrun.
  destruct (np_pad _ _ _) as [padded|]; [|discriminate]. cbn [bind] in Hrun.
  cbn [polys set_image] in Hrun.
  destruct (polys data) as [ps|] eqn:Hps; injection Hrun as <-.
  - split.
    + eexists. eexists. split; [reflexivity|]. split; reflexivity.
    + split; [discriminate | discriminate].
  - split.
    + eexists. eexists. split; [reflexivity|]. split; reflexivity.
    + split; [reflexivity|]. intros _. cbn. rewrite Hps. reflexivity.
Qed.

Lemma scale_pad_then_pack_witness :
  exists d' img sh,
    ScalePadImage.__call__ (C := nn_cv2) pad640 scenario_D = Ok d' /\
    PackLoaderInputs.__call__
      {| PackLoaderInputs.output_columns := ["image"; "shape"]%string |} (as_dict d') =
      Done [VImage img; VShape sh] /\
    PackLoaderInputs.__call__
      {| PackLoaderInputs.output_columns := ["image"; "polys"]%string |} (as_dict d') =
      AssertionError "polys".
Proof.
  assert (Hrun : exists d', ScalePadImage.__call__ (C := nn_cv2) pad640 scenario_D = Ok d').
  { eexists. vm_compute. reflexivity. }
  destruct Hrun as (d' & Hrun).
  destruct (scale_pad_then_pack (C := nn_cv2) pad640 scenario_D d' Hrun)
    as [(img & sh & Hpack & _) Hpolys].
  exists d', img, sh. split; [exact Hrun|]. split; [exact Hpack|].
  apply Hpolys. reflexivity.
Defined.
